(** * The dataset scan engine of [cpp/src/arrow/dataset/scanner.cc]

    A shallow embedding of the scan configuration ([ScanOptions]), the
    [ScannerBuilder], the [Scanner] and its table assembly, followed by the
    properties that the specification states about them.

    Conventions.
    - [Status] and [Result<T>] become [Status] and [Result T]; the macros
      [RETURN_NOT_OK] and [ARROW_ASSIGN_OR_RAISE] become pattern matches whose
      error branch returns the error.
    - A [std::vector] is a [list]; [push_back]/[emplace_back] append at the
      end; indexed stores use stdpp's list insert after the explicit
      [resize] that the code performs.
    - Collaborators whose code lives in other translation units (the
      expression layer, record batches and tables, fragments) are interfaces:
      type classes whose methods are the calls that scanner.cc makes. *)

From stdpp Require Import base numbers list strings pretty.

(* ================================================================== *)
(** * Part I: definitions *)
(* ================================================================== *)

(** ** Status and Result *)

(** The non-OK codes of [arrow::StatusCode] that this code can produce or
    pass along.  [NameResolution] is the name the specification gives to the
    failure of a name lookup in a schema. *)
Inductive StatusCode :=
  | Invalid
  | NameResolution
  | TypeError
  | IOError
  | NotImplemented
  | UnknownError.

(** A non-OK status: a code and a message. *)
Record Error := mkError { error_code : StatusCode; error_message : string }.

(** [arrow::Status]: either [Status::OK()] or an error. *)
Inductive Status :=
  | OK
  | NotOK (e : Error).

(** [arrow::Result<T>]: a value or a non-OK status. *)
Inductive Result (A : Type) :=
  | Value (a : A)
  | Failed (e : Error).
Arguments Value {A} a.
Arguments Failed {A} e.

(** [Status::operator&=]: an OK status takes over the other one, a failed
    status keeps its own (first) error. *)
Definition Status_and (s t : Status) : Status :=
  match s with OK => t | NotOK _ => s end.

Definition Status_Invalid (msg : string) : Status := NotOK (mkError Invalid msg).

(** ** Schemas *)

(** The data types of fields; the scan engine never inspects them. *)
Inductive DataType := boolean | int32 | int64 | float64 | utf8.

Record Field := mkField { Field_name : string; Field_type : DataType }.

(** [arrow::Schema]: the ordered sequence [fields()] of named, typed fields. *)
Definition Schema := list Field.

(** [arrow::FieldPath]: the indices leading to a field. *)
Definition FieldPath := list nat.

(** Modelled from the spec: [Schema::GetFieldByName] (arrow/type.cc, not part
    of scanner.cc).  A name is findable when it resolves to exactly one field
    of the schema ("field names referenced by projection/filter must exist
    and be unique-resolvable within it"). *)
Definition Schema_GetFieldByName (s : Schema) (name : string) : option Field :=
  match List.filter (fun f => bool_decide (Field_name f = name)) s with
  | [f] => Some f
  | _ => None
  end.

(** Modelled from the spec: [Schema::CanReferenceFieldsByNames] (arrow/type.cc).
    "Fails with a NameResolution error if any column is not findable in the
    schema." *)
Fixpoint Schema_CanReferenceFieldsByNames (s : Schema) (names : list string) : Status :=
  match names with
  | [] => OK
  | name :: rest =>
      match Schema_GetFieldByName s name with
      | None =>
          NotOK (mkError NameResolution
                   ("Field named '" +:+ name +:+ "' not found or not unique in the schema."))
      | Some _ => Schema_CanReferenceFieldsByNames s rest
      end
  end.

(** Modelled from the spec: [SchemaFromColumnNames] (scanner_internal.h).  "A
    schema containing only the requested columns (order preserved, in request
    order)": each requested name contributes the field it resolves to. *)
Fixpoint SchemaFromColumnNames (input : Schema) (column_names : list string) : Schema :=
  match column_names with
  | [] => []
  | name :: rest =>
      match Schema_GetFieldByName input name with
      | Some f => f :: SchemaFromColumnNames input rest
      | None => SchemaFromColumnNames input rest
      end
  end.

(** ** The collaborators of the scan engine, as interfaces *)

(** The expression layer (arrow/dataset/expression.h) through the calls that
    scanner.cc makes: [literal(true)], [FieldsInExpression], [Expression::Bind],
    [FieldRef::FindOne] and [FieldRef::name] (a pointer that is null when the
    reference is not a plain name).  [default_filter] is the initial value of
    the member [ScanOptions::filter]. *)
Class ExpressionLayer := {
  Expression : Type;
  FieldRef : Type;
  literal_true : Expression;
  default_filter : Expression;
  FieldRef_name : FieldRef -> option string;
  FieldRef_FindOne : FieldRef -> Schema -> Result FieldPath;
  FieldsInExpression : Expression -> list FieldRef;
  Expression_Bind : Expression -> Schema -> Result Expression;
}.

(** Record batches, tables and fragments: containers that the scan engine
    moves around without looking inside.  [kDefaultBatchSize] is the initial
    value of [ScanOptions::batch_size]. *)
Class DataLayer := {
  RecordBatch : Type;
  Table : Type;
  Fragment : Type;
  Table_FromRecordBatches : Schema -> list RecordBatch -> Result Table;
  kDefaultBatchSize : Z;
}.

Section ScanModel.
Context `{EL : ExpressionLayer} `{DL : DataLayer}.

Definition RecordBatchVector := list RecordBatch.

(** An [Iterator<std::shared_ptr<RecordBatch>>], by the finite sequence of
    results that successive calls of [Next()] yield before the end. *)
Definition RecordBatchIterator := list (Result RecordBatch).

(** ** ScanOptions *)

(** [RecordBatchProjector]: only the schema it projects to matters here. *)
Record RecordBatchProjector := mkProjector { projector_schema : Schema }.

Record ScanOptions := mkScanOptions {
  filter : Expression;
  batch_size : Z;
  projector : RecordBatchProjector;
}.

(** Assignments to one member: [o.filter = e] and [o.batch_size = n]. *)
Definition ScanOptions_set_filter (e : Expression) (o : ScanOptions) : ScanOptions :=
  {| filter := e; batch_size := batch_size o; projector := projector o |}.

Definition ScanOptions_set_batch_size (n : Z) (o : ScanOptions) : ScanOptions :=
  {| filter := filter o; batch_size := n; projector := projector o |}.

(** [ScanOptions::schema()] is the projector's schema. *)
Definition ScanOptions_schema (o : ScanOptions) : Schema :=
  projector_schema (projector o).

(** [ScanOptions::ScanOptions(schema)] behind [ScanOptions::Make]: the
    projector is built from the schema, the other members keep their
    initial values. *)
Definition ScanOptions_Make (schema : Schema) : ScanOptions :=
  {| filter := default_filter;
     batch_size := kDefaultBatchSize;
     projector := mkProjector schema |}.

Definition ScanOptions_ReplaceSchema (o : ScanOptions) (schema : Schema) : ScanOptions :=
  let copy := ScanOptions_Make schema in
  let copy := ScanOptions_set_filter (filter o) copy in
  let copy := ScanOptions_set_batch_size (batch_size o) copy in
  copy.

(** [fields.push_back(x)]. *)
Definition push_back {A} (v : list A) (x : A) : list A := v ++ [x].

(** [ScanOptions::MaterializedFields].  The result is [None] when the
    [DCHECK(ref.name())] is violated, that is when a reference of the filter
    is not a plain name. *)
Definition ScanOptions_MaterializedFields (o : ScanOptions) : option (list string) :=
  let fields := [] in
  let fields :=
    foldl (fun fields f => push_back fields (Field_name f))
          fields (ScanOptions_schema o) in
  foldl (fun acc ref =>
           match acc, FieldRef_name ref with
           | Some fields, Some name => Some (push_back fields name)
           | _, _ => None
           end)
        (Some fields) (FieldsInExpression (filter o)).

(** ** Table assembly *)

(** [FlattenRecordBatchVector]: the two nested loops with [emplace_back]. *)
Definition FlattenRecordBatchVector (nested_batches : list RecordBatchVector)
  : RecordBatchVector :=
  foldl (fun flattened task_batches =>
           foldl (fun flattened batch => push_back flattened batch)
                 flattened task_batches)
        [] nested_batches.

(** [TableAssemblyState].  The mutex makes [Emplace] atomic; here every call
    of [Emplace] is one step on the shared state, and the interleaving of the
    tasks is the order of these steps. *)
Record TableAssemblyState := mkState { batches : list RecordBatchVector }.

(** [TableAssemblyState::Emplace].  Positions are the task ids that [ToTable]
    counts from zero, so [position + 1] is computed in [nat]. *)
Definition Emplace (b : RecordBatchVector) (position : nat) (st : TableAssemblyState)
  : TableAssemblyState :=
  let batches :=
    if bool_decide (length (batches st) <= position)
    then resize (position + 1) [] (batches st)
    else batches st in
  mkState (<[position := b]> batches).

(** ** Scan tasks *)

(** [ScanContext]: the execution environment of a scan. *)
Record ScanContext := mkScanContext { use_threads : bool }.

(** [MakeVectorIterator] (arrow/util/iterator.h): every element of the
    vector, each a success. *)
Definition MakeVectorIterator {A} (v : list A) : list (Result A) := Value <$> v.

(** Modelled from the spec: [Iterator<T>::ToVector] (arrow/util/iterator.h),
    which drives a finite sequence to completion: the elements up to the end,
    or the first error met on the way. *)
Fixpoint Iterator_ToVector {A} (it : list (Result A)) : Result (list A) :=
  match it with
  | [] => Value []
  | Value element :: rest =>
      match Iterator_ToVector rest with
      | Value out => Value (element :: out)
      | Failed e => Failed e
      end
  | Failed e :: _ => Failed e
  end.

(** [ScanTask] is polymorphic.  [InMemoryScanTask] is the variant of
    scanner.cc; a task of any other variant (fragment-backed, defined by the
    file formats) is given by what its [Execute()] returns. *)
Inductive ScanTask :=
  | InMemoryScanTask (record_batches_ : RecordBatchVector)
                     (options_ : ScanOptions) (context_ : ScanContext)
  | FragmentScanTask (execute : Result RecordBatchIterator)
                     (options_ : ScanOptions) (context_ : ScanContext).

(** [InMemoryScanTask::Execute], and the virtual dispatch of
    [ScanTask::Execute]. *)
Definition InMemoryScanTask_Execute (record_batches_ : RecordBatchVector)
  : Result RecordBatchIterator :=
  Value (MakeVectorIterator record_batches_).

Definition ScanTask_Execute (task : ScanTask) : Result RecordBatchIterator :=
  match task with
  | InMemoryScanTask record_batches_ _ _ => InMemoryScanTask_Execute record_batches_
  | FragmentScanTask execute _ _ => execute
  end.

(** An [Iterator<std::shared_ptr<ScanTask>>], by the sequence it yields. *)
Definition ScanTaskIterator := list (Result ScanTask).

Definition ScanTaskIteratorFromRecordBatch (batches : RecordBatchVector)
    (options : ScanOptions) (context : ScanContext) : Result ScanTaskIterator :=
  let tasks := [InMemoryScanTask batches options context] in
  Value (MakeVectorIterator tasks).

(** ** Datasets and the lazy sequence of fragments *)

(** [Dataset] through its two calls: [schema()] and [GetFragments(predicate)],
    the latter by the finite sequence of fragments it yields. *)
Record Dataset := mkDataset {
  Dataset_schema : Schema;
  Dataset_GetFragments : Expression -> list Fragment;
}.

(** The observable effect of enumerating fragments: the invocations of
    [Dataset::GetFragments] made so far, each with its predicate. *)
Definition EnumLog := list (Dataset * Expression).

(** An [Iterator<std::shared_ptr<Fragment>>] as the state of its pipeline:
    a vector iterator with the elements still to come, or the flattening of
    the per-dataset sequences with the current child sequence and the
    datasets not asked yet. *)
Inductive FragmentIterator :=
  | FragmentVectorIterator (v : list Fragment)
  | FragmentFlattenIterator (child : list Fragment) (datasets : list Dataset)
                            (predicate : Expression).

(** Modelled from the spec: [GetFragmentsFromDatasets] (dataset_internal.h).
    "A lazy sequence over the dataset's fragments, filtered/pruned using the
    bound filter expression; fragment enumeration is not triggered until the
    sequence is actually advanced": building the iterator asks no dataset. *)
Definition GetFragmentsFromDatasets (datasets : list Dataset) (predicate : Expression)
    (log : EnumLog) : FragmentIterator * EnumLog :=
  (FragmentFlattenIterator [] datasets predicate, log).

(** Modelled from the spec: advancing the flattening iterator when its child
    is exhausted asks the next dataset for its fragments, which is the moment
    [Dataset::GetFragments] is invoked. *)
Fixpoint FragmentFlattenIterator_pull (datasets : list Dataset) (predicate : Expression)
    (log : EnumLog) : option Fragment * FragmentIterator * EnumLog :=
  match datasets with
  | [] => (None, FragmentFlattenIterator [] [] predicate, log)
  | dataset :: rest =>
      let log := push_back log (dataset, predicate) in
      match Dataset_GetFragments dataset predicate with
      | fragment :: child => (Some fragment, FragmentFlattenIterator child rest predicate, log)
      | [] => FragmentFlattenIterator_pull rest predicate log
      end
  end.

(** Modelled from the spec: [Iterator::Next] (arrow/util/iterator.h), "produce
    next element or end": the next fragment ([None] at the end), the advanced
    iterator and the enumeration log. *)
Definition FragmentIterator_Next (it : FragmentIterator) (log : EnumLog)
  : option Fragment * FragmentIterator * EnumLog :=
  match it with
  | FragmentVectorIterator [] => (None, it, log)
  | FragmentVectorIterator (fragment :: v) => (Some fragment, FragmentVectorIterator v, log)
  | FragmentFlattenIterator (fragment :: child) datasets predicate =>
      (Some fragment, FragmentFlattenIterator child datasets predicate, log)
  | FragmentFlattenIterator [] datasets predicate =>
      FragmentFlattenIterator_pull datasets predicate log
  end.

(** Driving an iterator to its end with [Next]; [fuel] bounds the number of
    calls. *)
Fixpoint FragmentIterator_drain (fuel : nat) (it : FragmentIterator) (log : EnumLog)
  : list Fragment * EnumLog :=
  match fuel with
  | 0 => ([], log)
  | S fuel =>
      match FragmentIterator_Next it log with
      | (None, _, log) => ([], log)
      | (Some fragment, it, log) =>
          let '(out, log) := FragmentIterator_drain fuel it log in
          (fragment :: out, log)
      end
  end.

(** The whole sequence an iterator yields when driven to its end. *)
Definition FragmentIterator_elements (it : FragmentIterator) : list Fragment :=
  match it with
  | FragmentVectorIterator v => v
  | FragmentFlattenIterator child datasets predicate =>
      child ++ concat ((fun d => Dataset_GetFragments d predicate) <$> datasets)
  end.

(** ** Scanner *)

(** A scanner holds either a dataset or a single fragment: of the members
    [dataset_] and [fragment_] exactly one is not null.  The two cases are
    the two constructors. *)
Inductive ScannerSource :=
  | FromDataset (dataset_ : Dataset)
  | FromFragment (fragment_ : Fragment).

Record Scanner := mkScanner {
  Scanner_source : ScannerSource;
  Scanner_scan_options : ScanOptions;
  Scanner_scan_context : ScanContext;
}.

(** [Scanner::GetFragments], threading the enumeration log. *)
Definition Scanner_GetFragments (sc : Scanner) (log : EnumLog)
  : Result FragmentIterator * EnumLog :=
  match Scanner_source sc with
  | FromFragment fragment_ => (Value (FragmentVectorIterator [fragment_]), log)
  | FromDataset dataset_ =>
      let '(it, log) :=
        GetFragmentsFromDatasets [dataset_] (filter (Scanner_scan_options sc)) log in
      (Value it, log)
  end.

(** [Fragment::Scan]: the scan task a fragment produces for given options
    and context (file-format layer). *)
Class FragmentLayer := {
  Fragment_Scan : Fragment -> ScanOptions -> ScanContext -> Result ScanTask;
}.
Context `{FL : FragmentLayer}.

(** Modelled from the spec: [GetScanTaskIterator] (scanner_internal.h).
    "Composes GetFragments() with a fragment->ScanTask transform, producing a
    lazy sequence of ScanTasks, one per fragment, in fragment-enumeration
    order." *)
Definition GetScanTaskIterator (fragments : FragmentIterator) (options : ScanOptions)
    (context : ScanContext) : Result ScanTaskIterator :=
  Value ((fun fragment => Fragment_Scan fragment options context)
           <$> FragmentIterator_elements fragments).

(** [Scanner::Scan]. *)
Definition Scanner_Scan (sc : Scanner) (log : EnumLog) : Result ScanTaskIterator * EnumLog :=
  match Scanner_GetFragments sc log with
  | (Failed e, log) => (Failed e, log)
  | (Value fragment_it, log) =>
      (GetScanTaskIterator fragment_it (Scanner_scan_options sc) (Scanner_scan_context sc),
       log)
  end.

(** ** ScannerBuilder *)

(** The builder is made from a dataset, or from a fragment with its schema
    ([fragment_schema_]); [dataset_] is null exactly in the second case. *)
Inductive BuilderSource :=
  | BuilderDataset (dataset_ : Dataset)
  | BuilderFragment (fragment_schema_ : Schema) (fragment_ : Fragment).

Record ScannerBuilder := mkBuilder {
  source_ : BuilderSource;
  scan_options_ : ScanOptions;
  scan_context_ : ScanContext;
  has_projection_ : bool;
  project_columns_ : list string;
}.

(** Assignments through [scan_options_]. *)
Definition ScannerBuilder_set_scan_options (o : ScanOptions) (b : ScannerBuilder)
  : ScannerBuilder :=
  {| source_ := source_ b;
     scan_options_ := o;
     scan_context_ := scan_context_ b;
     has_projection_ := has_projection_ b;
     project_columns_ := project_columns_ b |}.

(** [ScannerBuilder::schema()]. *)
Definition ScannerBuilder_schema (b : ScannerBuilder) : Schema :=
  match source_ b with
  | BuilderFragment fragment_schema_ _ => fragment_schema_
  | BuilderDataset dataset_ => Dataset_schema dataset_
  end.

(** The methods of the builder return a [Status] and change the builder in
    place: they map a builder to a status and the builder afterwards. *)
Definition BuilderM := ScannerBuilder -> Status * ScannerBuilder.

Definition ScannerBuilder_Project (columns : list string) : BuilderM := fun b =>
  match Schema_CanReferenceFieldsByNames (ScannerBuilder_schema b) columns with
  | NotOK e => (NotOK e, b)
  | OK =>
      (OK, {| source_ := source_ b;
              scan_options_ := scan_options_ b;
              scan_context_ := scan_context_ b;
              has_projection_ := true;
              project_columns_ := columns |})
  end.

(** The loop of [ScannerBuilder::Filter]: the first reference that
    [FindOne] cannot resolve ends the call with its error. *)
Fixpoint Filter_check_refs (refs : list FieldRef) (schema : Schema) : Status :=
  match refs with
  | [] => OK
  | ref :: rest =>
      match FieldRef_FindOne ref schema with
      | Failed e => NotOK e
      | Value _ => Filter_check_refs rest schema
      end
  end.

Definition ScannerBuilder_Filter (filter_arg : Expression) : BuilderM := fun b =>
  match Filter_check_refs (FieldsInExpression filter_arg) (ScannerBuilder_schema b) with
  | NotOK e => (NotOK e, b)
  | OK =>
      match Expression_Bind filter_arg (ScannerBuilder_schema b) with
      | Failed e => (NotOK e, b)
      | Value bound =>
          (OK, ScannerBuilder_set_scan_options
                 (ScanOptions_set_filter bound (scan_options_ b)) b)
      end
  end.

(** [scan_context_->use_threads = use_threads].  The context is held by
    value: that a scanner finished earlier shares it with the builder is not
    followed, and no statement below depends on it. *)
Definition ScannerBuilder_UseThreads (use_threads_arg : bool) : BuilderM := fun b =>
  (OK, {| source_ := source_ b;
          scan_options_ := scan_options_ b;
          scan_context_ := mkScanContext use_threads_arg;
          has_projection_ := has_projection_ b;
          project_columns_ := project_columns_ b |}).

(** [batch_size] is an [int64_t]; it is only compared and stored. *)
Definition ScannerBuilder_BatchSize (batch_size_arg : Z) : BuilderM := fun b =>
  if bool_decide (batch_size_arg <= 0)%Z then
    (Status_Invalid ("BatchSize must be greater than 0, got " +:+ pretty batch_size_arg), b)
  else
    (OK, ScannerBuilder_set_scan_options
           (ScanOptions_set_batch_size batch_size_arg (scan_options_ b)) b).

(** The two constructors.  [DCHECK_OK(Filter(literal(true)))] evaluates the
    call and, in a release build, drops its status. *)
Definition ScannerBuilder_of_dataset (dataset : Dataset) (scan_context : ScanContext)
  : ScannerBuilder :=
  let b := {| source_ := BuilderDataset dataset;
              scan_options_ := ScanOptions_Make (Dataset_schema dataset);
              scan_context_ := scan_context;
              has_projection_ := false;
              project_columns_ := [] |} in
  (ScannerBuilder_Filter literal_true b).2.

Definition ScannerBuilder_of_fragment (schema : Schema) (fragment : Fragment)
    (scan_context : ScanContext) : ScannerBuilder :=
  let b := {| source_ := BuilderFragment schema fragment;
              scan_options_ := ScanOptions_Make schema;
              scan_context_ := scan_context;
              has_projection_ := false;
              project_columns_ := [] |} in
  (ScannerBuilder_Filter literal_true b).2.

(** [ScannerBuilder::Finish]. *)
Definition ScannerBuilder_Finish (b : ScannerBuilder) : Result Scanner :=
  let scan_options :=
    if has_projection_ b && negb (bool_decide (project_columns_ b = [])) then
      ScanOptions_ReplaceSchema (scan_options_ b)
        (SchemaFromColumnNames (ScannerBuilder_schema b) (project_columns_ b))
    else
      scan_options_ b in
  match source_ b with
  | BuilderFragment _ fragment_ =>
      Value (mkScanner (FromFragment fragment_) scan_options (scan_context_ b))
  | BuilderDataset dataset_ =>
      Value (mkScanner (FromDataset dataset_) scan_options (scan_context_ b))
  end.

(** The builders that the two constructors make. *)
Inductive constructed : ScannerBuilder -> Prop :=
  | constructed_of_dataset dataset scan_context :
      constructed (ScannerBuilder_of_dataset dataset scan_context)
  | constructed_of_fragment schema fragment scan_context :
      constructed (ScannerBuilder_of_fragment schema fragment scan_context).

(** The schema of the options of a builder is the schema of the builder. *)
Definition builder_invariant (b : ScannerBuilder) : Prop :=
  ScanOptions_schema (scan_options_ b) = ScannerBuilder_schema b.

(** The calls a client can make on a builder before [Finish]. *)
Inductive BuilderCall :=
  | CallProject (columns : list string)
  | CallFilter (filter_arg : Expression)
  | CallUseThreads (use_threads_arg : bool)
  | CallBatchSize (batch_size_arg : Z).

Definition run_call (c : BuilderCall) : BuilderM :=
  match c with
  | CallProject columns => ScannerBuilder_Project columns
  | CallFilter filter_arg => ScannerBuilder_Filter filter_arg
  | CallUseThreads use_threads_arg => ScannerBuilder_UseThreads use_threads_arg
  | CallBatchSize batch_size_arg => ScannerBuilder_BatchSize batch_size_arg
  end.

(** A client's sequence of calls; a failed call leaves the builder usable,
    so the sequence goes on whatever the statuses are. *)
Definition run_calls (cs : list BuilderCall) (b : ScannerBuilder) : ScannerBuilder :=
  foldl (fun b c => (run_call c b).2) b cs.

Definition is_Project (c : BuilderCall) : bool :=
  match c with CallProject _ => true | _ => false end.

Definition is_Filter (c : BuilderCall) : bool :=
  match c with CallFilter _ => true | _ => false end.

(** ** The task group and ToTable *)

(** A unit of work appended to the task group.  The closures of [ToTable]
    share the [TableAssemblyState] (a [shared_ptr]): a task maps the shared
    state to its status and the state afterwards. *)
Definition Task := TableAssemblyState -> Status * TableAssemblyState.

(** Modelled from the spec: the task group (arrow/util/task_group.h).  "One
    interface with two implementations": serial ("tasks run synchronously, one
    at a time, on the calling thread, in submission order") and threaded
    ("tasks run on a shared worker pool, order of completion unconstrained").
    [Finish()] gives "first error or success". *)
Record TaskGroup := mkTaskGroup {
  threaded : bool;
  status_ : Status;
  pending : list Task;
}.

(** Modelled from the spec: the two variants, with nothing appended yet. *)
Definition TaskGroup_MakeSerial : TaskGroup := mkTaskGroup false OK [].
Definition TaskGroup_MakeThreaded : TaskGroup := mkTaskGroup true OK [].

(** [ScanContext::TaskGroup()]. *)
Definition ScanContext_TaskGroup (context : ScanContext) : TaskGroup :=
  if use_threads context then TaskGroup_MakeThreaded else TaskGroup_MakeSerial.

(** Modelled from the spec: one task runs on the shared state, and the
    group keeps the "first error encountered". *)
Definition TaskGroup_run (task : Task) (acc : Status * TableAssemblyState)
  : Status * TableAssemblyState :=
  let '(s, st) := task acc.2 in (Status_and acc.1 s, st).

(** Modelled from the spec: [Append(unit_of_work)].  The serial group runs
    the task at once, on the calling thread; the threaded group hands it to
    the pool. *)
Definition TaskGroup_Append (task : Task) (tg : TaskGroup) (st : TableAssemblyState)
  : TaskGroup * TableAssemblyState :=
  if threaded tg then
    (mkTaskGroup (threaded tg) (status_ tg) (push_back (pending tg) task), st)
  else
    let '(s, st) := TaskGroup_run task (status_ tg, st) in
    (mkTaskGroup (threaded tg) s (pending tg), st).

(** Modelled from the spec: [Finish()] waits for the tasks and returns the
    status of the group, "first error or success".  In the threaded group the
    pool completes the appended tasks in the order [schedule] (indices into
    the tasks appended, in submission order). *)
Definition TaskGroup_Finish (schedule : list nat) (tg : TaskGroup) (st : TableAssemblyState)
  : Status * TableAssemblyState :=
  if threaded tg then
    foldl (fun acc id =>
             match pending tg !! id with
             | Some task => TaskGroup_run task acc
             | None => acc
             end)
          (status_ tg, st) schedule
  else
    (status_ tg, st).

(** The closure that [ToTable] appends for the scan task with index [id]. *)
Definition ToTable_task (id : nat) (scan_task : ScanTask) : Task := fun state =>
  match ScanTask_Execute scan_task with
  | Failed e => (NotOK e, state)
  | Value batch_it =>
      match Iterator_ToVector batch_it with
      | Failed e => (NotOK e, state)
      | Value local => (OK, Emplace local id state)
      end
  end.

(** The loop of [ToTable] over the scan tasks: an element that is an error
    ends [ToTable] with that error, every other element is appended to the
    task group under the next index. *)
Fixpoint ToTable_loop (scan_task_it : ScanTaskIterator) (scan_task_id : nat)
    (task_group : TaskGroup) (state : TableAssemblyState)
  : Status * TaskGroup * TableAssemblyState :=
  match scan_task_it with
  | [] => (OK, task_group, state)
  | Failed e :: _ => (NotOK e, task_group, state)
  | Value scan_task :: rest =>
      let id := scan_task_id in
      let scan_task_id := S scan_task_id in
      let '(task_group, state) :=
        TaskGroup_Append (ToTable_task id scan_task) task_group state in
      ToTable_loop rest scan_task_id task_group state
  end.

(** Lines 204-225 of [ToTable]: the task group of the context, the shared
    state, the loop and [Finish()], for a completion order [schedule] of the
    pool.  The result is the status that ends this part and the shared state
    at that moment. *)
Definition ToTable_assemble (schedule : list nat) (scan_task_it : ScanTaskIterator)
    (context : ScanContext) : Status * TableAssemblyState :=
  let task_group := ScanContext_TaskGroup context in
  let state := mkState [] in
  match ToTable_loop scan_task_it 0 task_group state with
  | (NotOK e, _, state) => (NotOK e, state)
  | (OK, task_group, state) => TaskGroup_Finish schedule task_group state
  end.

(** [Scanner::ToTable].  The enumeration log is not followed past [Scan()]:
    [ToTable] drives the whole sequence of scan tasks. *)
Definition Scanner_ToTable (schedule : list nat) (sc : Scanner) (log : EnumLog)
  : Result Table :=
  match (Scanner_Scan sc log).1 with
  | Failed e => Failed e
  | Value scan_task_it =>
      match ToTable_assemble schedule scan_task_it (Scanner_scan_context sc) with
      | (NotOK e, _) => Failed e
      | (OK, state) =>
          Table_FromRecordBatches (ScanOptions_schema (Scanner_scan_options sc))
                                  (FlattenRecordBatchVector (batches state))
      end
  end.

(** ** Views used in the statements *)

(** What a scan task produces when its closure runs: the vector of its
    batches, or the error of [Execute()] or of draining its iterator. *)
Definition ScanTask_batches (scan_task : ScanTask) : Result RecordBatchVector :=
  match ScanTask_Execute scan_task with
  | Failed e => Failed e
  | Value batch_it => Iterator_ToVector batch_it
  end.

(** The order in which the closures of [ToTable] run: submission order in a
    serial context, the completion order of the pool in a threaded one. *)
Definition execution_order (context : ScanContext) (schedule : list nat) (n : nat)
  : list nat :=
  if use_threads context then schedule else seq 0 n.

(** The closures of [tasks] run in the order [order] (indices in submission
    order), from a status and a shared state. *)
Definition run_in_order (tasks : list ScanTask) (order : list nat)
    (acc : Status * TableAssemblyState) : Status * TableAssemblyState :=
  foldl (fun acc id =>
           match tasks !! id with
           | Some scan_task => TaskGroup_run (ToTable_task id scan_task) acc
           | None => acc
           end)
        acc order.

(** The fragments of a scanner in enumeration order: the single fragment, or
    the sequence the dataset yields for the filter of the scan options. *)
Definition Scanner_fragments (sc : Scanner) : list Fragment :=
  match Scanner_source sc with
  | FromFragment fragment_ => [fragment_]
  | FromDataset dataset_ => Dataset_GetFragments dataset_ (filter (Scanner_scan_options sc))
  end.

(** The stores made when tasks whose batch vectors are [outs] complete in
    the order [order]: each vector goes to its submission index. *)
Definition Emplace_in_order (outs : list RecordBatchVector) (order : list nat)
    (st : TableAssemblyState) : TableAssemblyState :=
  foldl (fun st id =>
           match outs !! id with
           | Some local => Emplace local id st
           | None => st
           end)
        st order.

(** The error of the first task, in the order [order], that fails. *)
Fixpoint first_failure (tasks : list ScanTask) (order : list nat) : option Error :=
  match order with
  | [] => None
  | id :: rest =>
      match ScanTask_batches <$> tasks !! id with
      | Some (Failed e) => Some e
      | _ => first_failure tasks rest
      end
  end.

(** ** Views of a builder's call history *)


(** The projection in effect after a sequence of calls on a builder whose
    schema is [schema]: the columns of the last [Project] call that the schema
    accepted, if any, starting from [init]. *)
Definition effective_projection (schema : Schema) (calls : list BuilderCall)
    (init : option (list string)) : option (list string) :=
  foldl (fun acc c =>
           match c with
           | CallProject columns =>
               match Schema_CanReferenceFieldsByNames schema columns with
               | OK => Some columns
               | NotOK _ => acc
               end
           | _ => acc
           end)
        init calls.

(** The schema that a projection in effect stands for: the full schema when
    there is none or when its column list is empty. *)
Definition projected_schema (schema : Schema) (projection : option (list string))
  : Schema :=
  match projection with
  | Some (name :: rest) => SchemaFromColumnNames schema (name :: rest)
  | Some [] | None => schema
  end.

(** The batch size in effect after a sequence of calls: the argument of the
    last [BatchSize] call with a positive argument, starting from [init]. *)
Definition effective_batch_size (calls : list BuilderCall) (init : Z) : Z :=
  foldl (fun acc c =>
           match c with
           | CallBatchSize n => if bool_decide (n <= 0)%Z then acc else n
           | _ => acc
           end)
        init calls.


End ScanModel.

(** ** A concrete instance of the collaborators

    Used to run the definitions on concrete inputs. *)

(** Modelled from the spec: a field reference, by name or by position. *)
Inductive SampleFieldRef :=
  | RefName (name : string)
  | RefIndex (index : nat).

(** Modelled from the spec: expressions.  A "bound expression" is "a filter
    expression resolved against concrete schema field indices/types": binding
    turns a field reference into [SBound] with the index and type found. *)
Inductive SampleExpression :=
  | SLiteral (value : bool)
  | SField (ref : SampleFieldRef)
  | SBound (ref : SampleFieldRef) (index : nat) (type : DataType)
  | SCall (function : string) (lhs rhs : SampleExpression).

Definition SampleFieldRef_name (ref : SampleFieldRef) : option string :=
  match ref with RefName name => Some name | RefIndex _ => None end.

(** The positions of the fields of [s] called [name], counted from [i]. *)
Fixpoint positions_of (name : string) (s : Schema) (i : nat) : list nat :=
  match s with
  | [] => []
  | f :: rest =>
      if bool_decide (Field_name f = name)
      then i :: positions_of name rest (S i)
      else positions_of name rest (S i)
  end.

(** Modelled from the spec: [FieldRef::FindOne] succeeds when the reference
    "resolves to exactly one schema field". *)
Definition SampleFieldRef_FindOne (ref : SampleFieldRef) (s : Schema) : Result FieldPath :=
  match ref with
  | RefName name =>
      match positions_of name s 0 with
      | [i] => Value [i]
      | [] => Failed (mkError Invalid ("No match for FieldRef.Name(" +:+ name +:+ ")"))
      | _ => Failed (mkError Invalid ("Multiple matches for FieldRef.Name(" +:+ name +:+ ")"))
      end
  | RefIndex index =>
      if bool_decide (index < length s) then Value [index]
      else Failed (mkError Invalid ("No match for FieldRef.Index(" +:+ pretty index +:+ ")"))
  end.

(** Modelled from the spec: [FieldsInExpression], "every field name
    referenced anywhere in the filter expression", in order of occurrence. *)
Fixpoint SampleFieldsInExpression (e : SampleExpression) : list SampleFieldRef :=
  match e with
  | SLiteral _ => []
  | SField ref => [ref]
  | SBound ref _ _ => [ref]
  | SCall _ lhs rhs => SampleFieldsInExpression lhs ++ SampleFieldsInExpression rhs
  end.

(** Modelled from the spec: [Expression::Bind], "bound expression | error". *)
Fixpoint SampleBind (e : SampleExpression) (s : Schema) : Result SampleExpression :=
  match e with
  | SLiteral value => Value (SLiteral value)
  | SField ref | SBound ref _ _ =>
      match SampleFieldRef_FindOne ref s with
      | Value [index] =>
          match s !! index with
          | Some f => Value (SBound ref index (Field_type f))
          | None => Failed (mkError Invalid "field index out of range")
          end
      | Value _ => Failed (mkError Invalid "nested field path")
      | Failed e => Failed e
      end
  | SCall function lhs rhs =>
      match SampleBind lhs s with
      | Failed e => Failed e
      | Value lhs' =>
          match SampleBind rhs s with
          | Failed e => Failed e
          | Value rhs' => Value (SCall function lhs' rhs')
          end
      end
  end.

Definition SampleExpressionLayer : ExpressionLayer :=
  {| Expression := SampleExpression;
     FieldRef := SampleFieldRef;
     literal_true := SLiteral true;
     default_filter := SLiteral true;
     FieldRef_name := SampleFieldRef_name;
     FieldRef_FindOne := SampleFieldRef_FindOne;
     FieldsInExpression := SampleFieldsInExpression;
     Expression_Bind := SampleBind |}.

(** Record batches are named; a table is its schema with its batches; a
    fragment holds its batches in memory, or is a file given by the outcomes
    of reading its batches one by one, or cannot be opened at all. *)
Inductive SampleFragment :=
  | InMemory (record_batches : list string)
  | Readable (reads : list (Result string))
  | Unopenable (e : Error).

Definition SampleDataLayer : DataLayer :=
  {| RecordBatch := string;
     Table := Schema * list string;
     Fragment := SampleFragment;
     Table_FromRecordBatches := fun schema batches => Value (schema, batches);
     kDefaultBatchSize := 1048576 |}.

Definition SampleFragmentLayer
  : @FragmentLayer SampleExpressionLayer SampleDataLayer :=
  {| Fragment_Scan := fun (fragment : @Fragment SampleDataLayer) options context =>
       match fragment with
       | InMemory record_batches =>
           Value (@InMemoryScanTask SampleExpressionLayer SampleDataLayer
                    record_batches options context)
       | Readable reads =>
           Value (@FragmentScanTask SampleExpressionLayer SampleDataLayer
                    (Value reads) options context)
       | Unopenable e => Failed e
       end |}.

Definition sample_schema : Schema :=
  [mkField "a" int64; mkField "b" utf8; mkField "c" float64].

Section SampleObjects.
#[local] Existing Instance SampleExpressionLayer.
#[local] Existing Instance SampleDataLayer.
#[local] Existing Instance SampleFragmentLayer.

Definition io_error : Error := mkError IOError "read failed".
Definition open_error : Error := mkError IOError "cannot open fragment".

(** Three fragments of one batch each. *)
Definition sample_fragments : list Fragment :=
  [InMemory ["A"]; InMemory ["B"]; InMemory ["C"]].

Definition sample_dataset : Dataset :=
  mkDataset sample_schema (fun _ => sample_fragments).

(** The scanner that a fresh builder on [sample_dataset] finishes. *)
Definition sample_scanner (threads : bool) : Scanner :=
  let b := ScannerBuilder_of_dataset sample_dataset (mkScanContext threads) in
  mkScanner (FromDataset sample_dataset) (scan_options_ b) (scan_context_ b).

(** The scan tasks of [sample_scanner true]. *)
Definition sample_tasks : list ScanTask :=
  [InMemoryScanTask ["A"] (Scanner_scan_options (sample_scanner true))
                    (mkScanContext true);
   InMemoryScanTask ["B"] (Scanner_scan_options (sample_scanner true))
                    (mkScanContext true);
   InMemoryScanTask ["C"] (Scanner_scan_options (sample_scanner true))
                    (mkScanContext true)].

(** A dataset whose second fragment of three fails while it is read. *)
Definition failing_dataset : Dataset :=
  mkDataset sample_schema
    (fun _ => [InMemory ["A"]; Readable [Value "B1"; Failed io_error]; InMemory ["C"]]).

Definition failing_scanner (threads : bool) : Scanner :=
  let b := ScannerBuilder_of_dataset failing_dataset (mkScanContext threads) in
  mkScanner (FromDataset failing_dataset) (scan_options_ b) (scan_context_ b).

(** The scan tasks of [failing_scanner true]. *)
Definition failing_tasks : list ScanTask :=
  [InMemoryScanTask ["A"] (Scanner_scan_options (failing_scanner true))
                    (mkScanContext true);
   FragmentScanTask (Value [Value "B1"; Failed io_error])
                    (Scanner_scan_options (failing_scanner true))
                    (mkScanContext true);
   InMemoryScanTask ["C"] (Scanner_scan_options (failing_scanner true))
                    (mkScanContext true)].

(** A dataset whose first fragment fails while it is read and whose second
    fragment cannot be opened, so that no scan task is made for it. *)
Definition broken_dataset : Dataset :=
  mkDataset sample_schema (fun _ => [Readable [Failed io_error]; Unopenable open_error]).

Definition broken_scanner : Scanner :=
  let b := ScannerBuilder_of_dataset broken_dataset (mkScanContext false) in
  mkScanner (FromDataset broken_dataset) (scan_options_ b) (scan_context_ b).

(** A scanner over one in-memory fragment holding three batches. *)
Definition in_memory_scanner (threads : bool) : Scanner :=
  let b := ScannerBuilder_of_fragment sample_schema
             (InMemory ["A"; "B"; "C"]) (mkScanContext threads) in
  mkScanner (FromFragment (InMemory ["A"; "B"; "C"]))
            (scan_options_ b) (scan_context_ b).

(** The filter [a == c] and a builder on a fragment of [sample_schema]. *)
Definition a_equals_c : Expression :=
  SCall "equal" (SField (RefName "a")) (SField (RefName "c")).

Definition sample_builder : ScannerBuilder :=
  ScannerBuilder_of_fragment sample_schema (InMemory ["A"]) (mkScanContext false).

Definition sample_dataset_builder : ScannerBuilder :=
  ScannerBuilder_of_dataset sample_dataset (mkScanContext true).

(** A dataset that has no fragment for any filter, and its scanner. *)
Definition empty_dataset : Dataset := mkDataset sample_schema (fun _ => []).

Definition empty_scanner (threads : bool) : Scanner :=
  let b := ScannerBuilder_of_dataset empty_dataset (mkScanContext threads) in
  mkScanner (FromDataset empty_dataset) (scan_options_ b) (scan_context_ b).

(** The filter [a == x or c == y] on columns [x] and [y] that
    [sample_schema] does not have. *)
Definition a_x_c_y : Expression :=
  SCall "or" (SCall "equal" (SField (RefName "a")) (SField (RefName "x")))
             (SCall "equal" (SField (RefName "c")) (SField (RefName "y"))).

End SampleObjects.

(* ================================================================== *)
(** * Part II: properties *)
(* ================================================================== *)

(** ** Vectors filled by push_back *)

Lemma foldl_push_back_map {A B} (f : A -> B) (l : list A) (acc : list B) :
  foldl (fun acc x => push_back acc (f x)) acc l = acc ++ (f <$> l).
Proof.
  revert acc. induction l as [|x l IH]; intros acc; simpl.
  - by rewrite app_nil_r.
  - rewrite IH. unfold push_back. by rewrite <- app_assoc.
Qed.

Lemma foldl_push_back_concat {A} (nested : list (list A)) (acc : list A) :
  foldl (fun acc inner => foldl (fun acc x => push_back acc x) acc inner) acc nested
  = acc ++ concat nested.
Proof.
  revert acc. induction nested as [|inner nested IH]; intros acc; simpl.
  - by rewrite app_nil_r.
  - rewrite IH, (foldl_push_back_map id), list_fmap_id. by rewrite <- app_assoc.
Qed.

(** ** Names in a schema *)

Lemma Schema_GetFieldByName_Some (s : Schema) (name : string) (f : Field) :
  Schema_GetFieldByName s name = Some f -> Field_name f = name /\ f ∈ s.
Proof.
  unfold Schema_GetFieldByName. intros H.
  destruct (List.filter _ s) as [|f' [|]] eqn:Hfilter; simplify_eq.
  assert (Hin : In f (List.filter (fun f => bool_decide (Field_name f = name)) s)).
  { rewrite Hfilter. by left. }
  apply filter_In in Hin as [Hin Hname].
  split; [by apply bool_decide_eq_true in Hname|by apply list_elem_of_In].
Qed.

(** When every requested name is findable, the projected schema has exactly
    the requested names, in request order, each with its field of the input
    schema. *)
Lemma SchemaFromColumnNames_names (s : Schema) (columns : list string) :
  Schema_CanReferenceFieldsByNames s columns = OK ->
  Field_name <$> SchemaFromColumnNames s columns = columns /\
  Forall2 (fun f name => Schema_GetFieldByName s name = Some f)
          (SchemaFromColumnNames s columns) columns.
Proof.
  induction columns as [|name columns IH]; simpl; [done|].
  destruct (Schema_GetFieldByName s name) as [f|] eqn:Hget; [|done].
  intros Hrest. destruct (IH Hrest) as [Hnames Hfields].
  apply Schema_GetFieldByName_Some in Hget as Hf. destruct Hf as [Hname _].
  split; [by rewrite fmap_cons, Hname, Hnames|by constructor].
Qed.

Section ScanProperties.
Context `{EL : ExpressionLayer} `{DL : DataLayer} `{FL : @FragmentLayer EL DL}.

(** ** What the calls on a builder keep *)

Lemma run_call_source (c : BuilderCall) (b : ScannerBuilder) :
  source_ (run_call c b).2 = source_ b /\
  projector (scan_options_ (run_call c b).2) = projector (scan_options_ b).
Proof.
  destruct c; simpl.
  - unfold ScannerBuilder_Project. by destruct (Schema_CanReferenceFieldsByNames _ _).
  - unfold ScannerBuilder_Filter. destruct (Filter_check_refs _ _); [|done].
    by destruct (Expression_Bind _ _).
  - done.
  - unfold ScannerBuilder_BatchSize. by case_bool_decide.
Qed.

Lemma run_calls_source (calls : list BuilderCall) (b : ScannerBuilder) :
  source_ (run_calls calls b) = source_ b /\
  projector (scan_options_ (run_calls calls b)) = projector (scan_options_ b).
Proof.
  unfold run_calls. revert b. induction calls as [|c calls IH]; intros b; simpl; [done|].
  destruct (IH (run_call c b).2) as [-> ->]. apply run_call_source.
Qed.

Lemma run_calls_schema (calls : list BuilderCall) (b : ScannerBuilder) :
  ScannerBuilder_schema (run_calls calls b) = ScannerBuilder_schema b.
Proof. unfold ScannerBuilder_schema. by destruct (run_calls_source calls b) as [-> _]. Qed.

Lemma constructed_invariant (b : ScannerBuilder) : constructed b -> builder_invariant b.
Proof.
  unfold builder_invariant, ScanOptions_schema, ScannerBuilder_schema.
  destruct 1 as [dataset ctx|schema fragment ctx].
  - unfold ScannerBuilder_of_dataset.
    destruct (run_call_source (CallFilter literal_true)
                (mkBuilder (BuilderDataset dataset)
                   (ScanOptions_Make (Dataset_schema dataset)) ctx false []))
      as [Hsource Hprojector].
    simpl in Hsource, Hprojector. by rewrite Hsource, Hprojector.
  - unfold ScannerBuilder_of_fragment.
    destruct (run_call_source (CallFilter literal_true)
                (mkBuilder (BuilderFragment schema fragment)
                   (ScanOptions_Make schema) ctx false []))
      as [Hsource Hprojector].
    simpl in Hsource, Hprojector. by rewrite Hsource, Hprojector.
Qed.

Lemma run_calls_invariant (calls : list BuilderCall) (b : ScannerBuilder) :
  builder_invariant b -> builder_invariant (run_calls calls b).
Proof.
  unfold builder_invariant, ScanOptions_schema. intros H.
  rewrite run_calls_schema. by destruct (run_calls_source calls b) as [_ ->].
Qed.

(** Calls other than [Project] keep the recorded projection. *)
Lemma run_calls_projection (calls : list BuilderCall) (b : ScannerBuilder) :
  Forall (fun c => is_Project c = false) calls ->
  has_projection_ (run_calls calls b) = has_projection_ b /\
  project_columns_ (run_calls calls b) = project_columns_ b.
Proof.
  unfold run_calls. intros Hcalls. revert b.
  induction Hcalls as [|c calls Hc _ IH]; intros b; simpl; [done|].
  destruct (IH (run_call c b).2) as [-> ->].
  destruct c; simpl in *; try done.
  - unfold ScannerBuilder_Filter. destruct (Filter_check_refs _ _); [|done].
    by destruct (Expression_Bind _ _).
  - unfold ScannerBuilder_BatchSize. by case_bool_decide.
Qed.

(** Calls other than [Filter] keep the filter. *)
Lemma run_calls_filter (calls : list BuilderCall) (b : ScannerBuilder) :
  Forall (fun c => is_Filter c = false) calls ->
  filter (scan_options_ (run_calls calls b)) = filter (scan_options_ b).
Proof.
  unfold run_calls. intros Hcalls. revert b.
  induction Hcalls as [|c calls Hc _ IH]; intros b; simpl; [done|].
  rewrite IH. destruct c; simpl in *; try done.
  - unfold ScannerBuilder_Project. by destruct (Schema_CanReferenceFieldsByNames _ _).
  - unfold ScannerBuilder_BatchSize. by case_bool_decide.
Qed.

(** [Finish] always yields a scanner; its options are the builder's, with
    the schema replaced when a non-empty projection is recorded. *)
Lemma ScannerBuilder_Finish_options (b : ScannerBuilder) :
  exists sc, ScannerBuilder_Finish b = Value sc /\
    Scanner_scan_context sc = scan_context_ b /\
    Scanner_scan_options sc =
      if has_projection_ b && negb (bool_decide (project_columns_ b = []))
      then ScanOptions_ReplaceSchema (scan_options_ b)
             (SchemaFromColumnNames (ScannerBuilder_schema b) (project_columns_ b))
      else scan_options_ b.
Proof. unfold ScannerBuilder_Finish. destruct (source_ b); by eexists. Qed.

(** ** FlattenRecordBatchVector and Emplace *)

Lemma FlattenRecordBatchVector_concat (nested : list RecordBatchVector) :
  FlattenRecordBatchVector nested = concat nested.
Proof. unfold FlattenRecordBatchVector. by rewrite foldl_push_back_concat. Qed.

Lemma Emplace_length (b : RecordBatchVector) (p : nat) (st : TableAssemblyState) :
  length (batches (Emplace b p st)) = length (batches st) `max` (p + 1).
Proof.
  unfold Emplace. simpl. rewrite length_insert.
  case_bool_decide; [rewrite length_resize|]; lia.
Qed.

(** What a slot holds after [Emplace]: the stored list at [p], the old
    content at an old index, an empty list in a slot made by [resize]. *)
Lemma Emplace_lookup (b : RecordBatchVector) (p i : nat) (st : TableAssemblyState) :
  batches (Emplace b p st) !! i =
    if decide (i = p) then Some b
    else if decide (i < length (batches st)) then batches st !! i
    else if decide (i < p) then Some []
    else None.
Proof.
  unfold Emplace. simpl. destruct (decide (i = p)) as [->|Hne].
  - apply list_lookup_insert_eq. case_bool_decide; [rewrite length_resize|]; lia.
  - rewrite list_lookup_insert_ne by done.
    case_bool_decide as Hlen.
    + destruct (decide (i < length (batches st))) as [Hlt|Hge].
      * by rewrite lookup_resize by lia.
      * destruct (decide (i < p)).
        -- by rewrite lookup_resize_new by lia.
        -- apply lookup_ge_None. rewrite length_resize. lia.
    + destruct (decide (i < length (batches st))); [done|].
      destruct (decide (i < p)); [lia|]. apply lookup_ge_None. lia.
Qed.

Lemma TableAssemblyState_eq (s t : TableAssemblyState) :
  batches s = batches t -> s = t.
Proof. destruct s, t; simpl; congruence. Qed.

Lemma Emplace_commute (b1 b2 : RecordBatchVector) (p1 p2 : nat) (st : TableAssemblyState) :
  p1 <> p2 ->
  Emplace b2 p2 (Emplace b1 p1 st) = Emplace b1 p1 (Emplace b2 p2 st).
Proof.
  intros Hne. apply TableAssemblyState_eq, list_eq. intros i.
  rewrite !Emplace_lookup, !Emplace_length.
  repeat case_decide; try done; try lia.
Qed.

(** C10.  [Emplace(b, p)] grows the collection to size at least [p + 1],
    the new slots being empty, stores [b] at index [p] and leaves every other
    index as it was; so two calls at distinct indices keep both lists, in
    whichever order they are made. *)
Theorem Emplace_grows_stores_and_frames
    (st : TableAssemblyState) (b : RecordBatchVector) (p : nat) :
  let st' := Emplace b p st in
  p + 1 <= length (batches st') /\
  length (batches st') = length (batches st) `max` (p + 1) /\
  batches st' !! p = Some b /\
  (forall i, i <> p -> i < length (batches st) -> batches st' !! i = batches st !! i) /\
  (forall i, i <> p -> length (batches st) <= i -> i < length (batches st') ->
             batches st' !! i = Some []) /\
  (forall b2 p2, p2 <> p ->
     batches (Emplace b2 p2 st') !! p = Some b /\
     batches (Emplace b2 p2 st') !! p2 = Some b2 /\
     Emplace b2 p2 (Emplace b p st) = Emplace b p (Emplace b2 p2 st)).
Proof.
  intros st'. subst st'. repeat split.
  - rewrite Emplace_length. lia.
  - apply Emplace_length.
  - rewrite Emplace_lookup. by rewrite decide_True.
  - intros i Hne Hlt. rewrite Emplace_lookup.
    rewrite decide_False by done. by rewrite decide_True.
  - intros i Hne Hge Hlt. rewrite Emplace_length in Hlt. rewrite Emplace_lookup.
    rewrite decide_False by done. rewrite decide_False by lia.
    rewrite decide_True by lia. done.
  - rewrite Emplace_lookup, decide_False by done.
    rewrite Emplace_length, decide_True by lia.
    rewrite Emplace_lookup. by rewrite decide_True.
  - rewrite Emplace_lookup. by rewrite decide_True.
  - apply Emplace_commute. done.
Qed.

(** ** The closures of ToTable and the order in which they run *)

Lemma ToTable_task_batches (id : nat) (scan_task : ScanTask) (st : TableAssemblyState) :
  ToTable_task id scan_task st =
    match ScanTask_batches scan_task with
    | Failed e => (NotOK e, st)
    | Value local => (OK, Emplace local id st)
    end.
Proof.
  unfold ToTable_task, ScanTask_batches.
  destruct (ScanTask_Execute scan_task); [|done].
  by destruct (Iterator_ToVector _).
Qed.

Lemma Status_and_OK_r (s : Status) : Status_and s OK = s.
Proof. by destruct s. Qed.

(** In a threaded context the loop only queues the closures. *)
Lemma ToTable_loop_threaded (tasks : list ScanTask) (k : nat) (s : Status)
    (pend : list Task) (st : TableAssemblyState) :
  ToTable_loop (Value <$> tasks) k (mkTaskGroup true s pend) st =
    (OK, mkTaskGroup true s (pend ++ imap (fun i t => ToTable_task (k + i) t) tasks), st).
Proof.
  revert k pend. induction tasks as [|t tasks IH]; intros k pend; simpl.
  - by rewrite app_nil_r.
  - rewrite IH. unfold push_back.
    rewrite <- app_assoc. simpl. rewrite Nat.add_0_r.
    rewrite (imap_ext (fun i t0 => ToTable_task (S (k + i)) t0)
                      ((fun i t0 => ToTable_task (k + i) t0) ∘ S) tasks); [done|].
    intros i x _. simpl. f_equal. lia.
Qed.

(** In a serial context the loop runs each closure as it is appended: the
    closures run in submission order. *)
Lemma ToTable_loop_serial (pre tasks : list ScanTask) (s : Status)
    (pend : list Task) (st : TableAssemblyState) :
  ToTable_loop (Value <$> tasks) (length pre) (mkTaskGroup false s pend) st =
    let r := run_in_order (pre ++ tasks) (seq (length pre) (length tasks)) (s, st) in
    (OK, mkTaskGroup false r.1 pend, r.2).
Proof.
  revert pre s st. induction tasks as [|t tasks IH]; intros pre s st; simpl; [done|].
  rewrite list_lookup_middle by done.
  unfold TaskGroup_Append. simpl.
  destruct (TaskGroup_run (ToTable_task (length pre) t) (s, st)) as [s' st'] eqn:Hrun.
  specialize (IH (pre ++ [t]) s' st').
  rewrite length_app in IH. simpl in IH. rewrite Nat.add_1_r in IH.
  fold (@fmap list _ ScanTask (Result ScanTask) Value tasks).
  rewrite IH. simpl. by rewrite <- app_assoc.
Qed.

Lemma TaskGroup_Finish_threaded (tasks : list ScanTask) (schedule : list nat)
    (s : Status) (st : TableAssemblyState) :
  TaskGroup_Finish schedule
    (mkTaskGroup true s (imap (fun i t => ToTable_task i t) tasks)) st
  = run_in_order tasks schedule (s, st).
Proof.
  unfold TaskGroup_Finish, run_in_order. simpl.
  generalize (s, st). induction schedule as [|id schedule IH]; intros acc; simpl; [done|].
  rewrite <- IH. f_equal. rewrite list_lookup_imap.
  by destruct (tasks !! id).
Qed.

(** Lines 204-225 of [ToTable] run the closures of the enumerated tasks in
    the execution order of the context. *)
Lemma ToTable_assemble_run (schedule : list nat) (tasks : list ScanTask)
    (context : ScanContext) :
  ToTable_assemble schedule (Value <$> tasks) context =
    run_in_order tasks (execution_order context schedule (length tasks))
                 (OK, mkState []).
Proof.
  unfold ToTable_assemble, ScanContext_TaskGroup, execution_order.
  destruct (use_threads context).
  - unfold TaskGroup_MakeThreaded. rewrite ToTable_loop_threaded. simpl.
    apply TaskGroup_Finish_threaded.
  - unfold TaskGroup_MakeSerial.
    rewrite (ToTable_loop_serial [] tasks). simpl.
    by destruct (run_in_order _ _ _).
Qed.

(** An error among the elements of the task sequence ends the loop. *)
Lemma ToTable_loop_enumeration_error (tasks : list ScanTask) (e : Error)
    (rest : ScanTaskIterator) (k : nat) (tg : TaskGroup) (st : TableAssemblyState) :
  (ToTable_loop ((Value <$> tasks) ++ Failed e :: rest) k tg st).1.1 = NotOK e.
Proof.
  revert k tg st. induction tasks as [|t tasks IH]; intros k tg st; simpl; [done|].
  destruct (TaskGroup_Append _ tg st) as [tg' st']. apply IH.
Qed.

(** When every task succeeds, running the closures only makes the stores. *)
Lemma run_in_order_success (tasks : list ScanTask) (outs : list RecordBatchVector)
    (order : list nat) (s : Status) (st : TableAssemblyState) :
  ScanTask_batches <$> tasks = Value <$> outs ->
  run_in_order tasks order (s, st) = (s, Emplace_in_order outs order st).
Proof.
  intros Hout. unfold run_in_order, Emplace_in_order.
  revert s st. induction order as [|id order IH]; intros s st; simpl; [done|].
  pose proof (f_equal (fun l => l !! id) Hout) as Hid. simpl in Hid.
  rewrite !list_lookup_fmap in Hid.
  destruct (tasks !! id) as [t|], (outs !! id) as [o|]; simplify_eq/=; [|done].
  unfold TaskGroup_run. simpl. rewrite ToTable_task_batches, Hid.
  rewrite Status_and_OK_r. apply IH.
Qed.

(** Stores at different indices commute, and a task stores the same vector
    whenever it runs: the order of completion does not matter. *)
Lemma Emplace_in_order_Permutation (outs : list RecordBatchVector)
    (order1 order2 : list nat) :
  order1 ≡ₚ order2 ->
  forall st, Emplace_in_order outs order1 st = Emplace_in_order outs order2 st.
Proof.
  unfold Emplace_in_order.
  induction 1 as [|x l l' _ IH|x y l|l l' l'' _ IH1 _ IH2]; intros st; simpl.
  - done.
  - apply IH.
  - f_equal. destruct (decide (x = y)) as [->|Hne]; [done|].
    destruct (outs !! x), (outs !! y); try done.
    by apply Emplace_commute.
  - by rewrite IH1.
Qed.

(** In submission order the stores build the vector of the tasks' outputs
    from the left. *)
Lemma Emplace_in_order_seq (outs : list RecordBatchVector) (m k : nat) :
  k + m <= length outs ->
  Emplace_in_order outs (seq k m) (mkState (take k outs)) = mkState (take (k + m) outs).
Proof.
  unfold Emplace_in_order. revert k. induction m as [|m IH]; intros k Hlen; simpl.
  - by rewrite Nat.add_0_r.
  - destruct (lookup_lt_is_Some_2 outs k) as [o Ho]; [lia|]. rewrite Ho.
    replace (Emplace o k (mkState (take k outs))) with (mkState (take (S k) outs)).
    { rewrite IH by lia. do 2 f_equal. lia. }
    apply TableAssemblyState_eq, list_eq. intros i.
    rewrite Emplace_lookup. simpl. rewrite length_take_le by lia.
    rewrite !lookup_take. repeat case_decide; try done; try lia.
    by subst.
Qed.

(** Whatever the completion order, the shared state ends as the vector of
    the tasks' outputs, each at its submission index. *)
Lemma Emplace_in_order_complete (outs : list RecordBatchVector) (order : list nat) :
  order ≡ₚ seq 0 (length outs) ->
  Emplace_in_order outs order (mkState []) = mkState outs.
Proof.
  intros Hperm. rewrite (Emplace_in_order_Permutation _ _ _ Hperm).
  pose proof (Emplace_in_order_seq outs (length outs) 0) as H.
  rewrite take_0 in H. simpl in H. rewrite firstn_all in H. apply H. lia.
Qed.

(** The status of the group after the closures ran: its first error. *)
Lemma run_in_order_status (tasks : list ScanTask) (order : list nat)
    (s : Status) (st : TableAssemblyState) :
  (run_in_order tasks order (s, st)).1 =
    Status_and s (match first_failure tasks order with
                  | Some e => NotOK e
                  | None => OK
                  end).
Proof.
  unfold run_in_order. revert s st.
  induction order as [|id order IH]; intros s st; simpl.
  - by rewrite Status_and_OK_r.
  - destruct (tasks !! id) as [t|]; simpl; [|apply IH].
    unfold TaskGroup_run. simpl. rewrite ToTable_task_batches.
    destruct (ScanTask_batches t) as [local|e]; simpl.
    + rewrite Status_and_OK_r. apply IH.
    + rewrite IH. by destruct s.
Qed.

Lemma first_failure_Some (tasks : list ScanTask) (order : list nat) (id : nat)
    (t : ScanTask) (e : Error) :
  id ∈ order -> tasks !! id = Some t -> ScanTask_batches t = Failed e ->
  is_Some (first_failure tasks order).
Proof.
  intros Hin Ht He. induction order as [|id' order IH]; [by apply not_elem_of_nil in Hin|].
  simpl.
  apply elem_of_cons in Hin as [<-|Hin].
  - rewrite Ht. simpl. rewrite He. by eexists.
  - destruct (tasks !! id') as [t'|]; simpl; [|by apply IH].
    destruct (ScanTask_batches t'); [by apply IH|by eexists].
Qed.

(** ** Scan and ToTable *)

(** [Scan()] yields one element per fragment, in enumeration order. *)
Lemma Scanner_Scan_fragments (sc : Scanner) (log : EnumLog) :
  Scanner_Scan sc log =
    (Value ((fun fragment => Fragment_Scan fragment (Scanner_scan_options sc)
                                           (Scanner_scan_context sc))
              <$> Scanner_fragments sc), log).
Proof.
  unfold Scanner_Scan, Scanner_GetFragments, Scanner_fragments, GetScanTaskIterator.
  destruct (Scanner_source sc); simpl; by rewrite ?app_nil_r.
Qed.

Lemma ToTable_loop_enumerated (tasks : list ScanTask) (context : ScanContext) :
  exists tg st,
    ToTable_loop (Value <$> tasks) 0 (ScanContext_TaskGroup context) (mkState [])
    = (OK, tg, st).
Proof.
  unfold ScanContext_TaskGroup. destruct (use_threads context).
  - unfold TaskGroup_MakeThreaded. rewrite ToTable_loop_threaded. by eexists _, _.
  - unfold TaskGroup_MakeSerial. rewrite (ToTable_loop_serial [] tasks). by eexists _, _.
Qed.

(** The heart of the ordering argument, shared by the statements below. *)
Lemma ToTable_when_all_tasks_succeed
    (schedule : list nat) (sc : Scanner) (log : EnumLog)
    (tasks : list ScanTask) (outs : list RecordBatchVector) :
  (Scanner_Scan sc log).1 = Value (Value <$> tasks) ->
  ScanTask_batches <$> tasks = Value <$> outs ->
  schedule ≡ₚ seq 0 (length tasks) ->
  ToTable_assemble schedule (Value <$> tasks) (Scanner_scan_context sc)
    = (OK, mkState outs) /\
  Scanner_ToTable schedule sc log =
    Table_FromRecordBatches (ScanOptions_schema (Scanner_scan_options sc)) (concat outs).
Proof.
  intros Hscan Hout Hperm.
  assert (Hlen : length tasks = length outs).
  { apply (f_equal length) in Hout. by rewrite !length_fmap in Hout. }
  assert (Hrun : ToTable_assemble schedule (Value <$> tasks) (Scanner_scan_context sc)
                 = (OK, mkState outs)).
  { rewrite ToTable_assemble_run, (run_in_order_success _ outs) by done.
    f_equal. apply Emplace_in_order_complete. rewrite <- Hlen.
    unfold execution_order. by destruct (use_threads _). }
  split; [done|].
  unfold Scanner_ToTable. rewrite Hscan, Hrun. simpl.
  by rewrite FlattenRecordBatchVector_concat.
Qed.

(** C1.  When the scan tasks all succeed, then in whatever order they
    complete, every task's batch list ends at its zero-based submission index
    in the shared state, and the table is built from the lists flattened in
    index order: the batches of the table are in submission order, which is
    the order in which the fragments were enumerated. *)
Theorem ToTable_batches_in_submission_order
    (schedule : list nat) (sc : Scanner) (log : EnumLog)
    (tasks : list ScanTask) (outs : list RecordBatchVector) :
  (Scanner_Scan sc log).1 = Value (Value <$> tasks) ->
  ScanTask_batches <$> tasks = Value <$> outs ->
  schedule ≡ₚ seq 0 (length tasks) ->
  (fun fragment => Fragment_Scan fragment (Scanner_scan_options sc) (Scanner_scan_context sc))
    <$> Scanner_fragments sc = Value <$> tasks /\
  ToTable_assemble schedule (Value <$> tasks) (Scanner_scan_context sc)
    = (OK, mkState outs) /\
  (forall i t, tasks !! i = Some t ->
     exists local, ScanTask_batches t = Value local /\
       batches (ToTable_assemble schedule (Value <$> tasks) (Scanner_scan_context sc)).2 !! i
       = Some local) /\
  Scanner_ToTable schedule sc log =
    Table_FromRecordBatches (ScanOptions_schema (Scanner_scan_options sc)) (concat outs).
Proof.
  intros Hscan Hout Hperm.
  destruct (ToTable_when_all_tasks_succeed schedule sc log tasks outs)
    as (Hrun & Htable); try done.
  split; [|split; [done|split; [|done]]].
  - rewrite Scanner_Scan_fragments in Hscan. simpl in Hscan. congruence.
  - intros i t Ht. rewrite Hrun. simpl.
    pose proof (f_equal (fun l => l !! i) Hout) as Hi. simpl in Hi.
    rewrite !list_lookup_fmap, Ht in Hi. simpl in Hi.
    destruct (outs !! i) as [local|]; simplify_eq/=. by exists local.
Qed.

(** C4, as amended.  When an element of the task sequence is an error, the
    loop of [ToTable] returns that error at once.  When every scan task is
    enumerated and at least one of them fails, [Finish()] returns the error
    of the first task that failed in the order of execution, and [ToTable]
    returns that error.  In both cases the result is an error, never a
    table. *)
Theorem ToTable_failure_returns_error_and_no_table
    (schedule : list nat) (sc : Scanner) (log : EnumLog) (items : ScanTaskIterator) :
  (Scanner_Scan sc log).1 = Value items ->
  (forall tasks e rest,
     items = (Value <$> tasks) ++ Failed e :: rest ->
     Scanner_ToTable schedule sc log = Failed e) /\
  (forall tasks,
     items = Value <$> tasks ->
     schedule ≡ₚ seq 0 (length tasks) ->
     (exists t e, t ∈ tasks /\ ScanTask_batches t = Failed e) ->
     exists e tg st st',
       ToTable_loop items 0 (ScanContext_TaskGroup (Scanner_scan_context sc)) (mkState [])
         = (OK, tg, st) /\
       TaskGroup_Finish schedule tg st = (NotOK e, st') /\
       first_failure tasks
         (execution_order (Scanner_scan_context sc) schedule (length tasks)) = Some e /\
       Scanner_ToTable schedule sc log = Failed e).
Proof.
  intros Hscan. split.
  - intros tasks e rest ->. unfold Scanner_ToTable, ToTable_assemble. rewrite Hscan.
    pose proof (ToTable_loop_enumeration_error tasks e rest 0
                  (ScanContext_TaskGroup (Scanner_scan_context sc)) (mkState [])) as H.
    destruct (ToTable_loop _ _ _ _) as [[s tg] st]. simpl in H. by subst s.
  - intros tasks -> Hperm (t & e0 & Hin & Hfail).
    apply list_elem_of_lookup in Hin as [id Hid].
    set (order := execution_order (Scanner_scan_context sc) schedule (length tasks)).
    assert (Hid_in : id ∈ order).
    { assert (Hseq : id ∈ seq 0 (length tasks)).
      { apply elem_of_seq. apply lookup_lt_Some in Hid. lia. }
      unfold order, execution_order. destruct (use_threads _); [|done].
      by rewrite Hperm. }
    destruct (first_failure_Some tasks order id t e0 Hid_in Hid Hfail) as [e He].
    destruct (ToTable_loop_enumerated tasks (Scanner_scan_context sc)) as (tg & st & Hloop).
    pose proof (ToTable_assemble_run schedule tasks (Scanner_scan_context sc)) as Hrun.
    pose proof (run_in_order_status tasks order OK (mkState [])) as Hst.
    fold order in Hrun. rewrite <- Hrun, He in Hst. simpl in Hst.
    unfold ToTable_assemble in Hrun, Hst. rewrite Hloop in Hrun, Hst.
    destruct (TaskGroup_Finish schedule tg st) as [s' st'] eqn:Hfin.
    simpl in Hst. subst s'.
    exists e, tg, st, st'. repeat split; try done.
    unfold Scanner_ToTable, ToTable_assemble. by rewrite Hscan, Hloop, Hfin.
Qed.

(** C7.  A scan whose task sequence is the in-memory task made from the
    batches [B] round-trips: executing the task yields [B] verbatim, and
    [ToTable] builds the table from exactly the batches of [B] in their
    order, in a serial and in a threaded context alike. *)
Theorem InMemory_scan_roundtrip
    (B : RecordBatchVector) (schedule : list nat) (sc : Scanner) (log : EnumLog) :
  (Scanner_Scan sc log).1 =
    ScanTaskIteratorFromRecordBatch B (Scanner_scan_options sc) (Scanner_scan_context sc) ->
  schedule ≡ₚ seq 0 1 ->
  ScanTask_batches
    (InMemoryScanTask B (Scanner_scan_options sc) (Scanner_scan_context sc)) = Value B /\
  ToTable_assemble schedule
    (MakeVectorIterator
       [InMemoryScanTask B (Scanner_scan_options sc) (Scanner_scan_context sc)])
    (Scanner_scan_context sc) = (OK, mkState [B]) /\
  Scanner_ToTable schedule sc log =
    Table_FromRecordBatches (ScanOptions_schema (Scanner_scan_options sc)) B.
Proof.
  intros Hscan Hperm.
  assert (Hvec : forall l : RecordBatchVector, Iterator_ToVector (MakeVectorIterator l) = Value l).
  { induction l as [|x l IH]; [done|].
    unfold MakeVectorIterator in *. rewrite fmap_cons. simpl. by rewrite IH. }
  assert (Hbatches : ScanTask_batches
            (InMemoryScanTask B (Scanner_scan_options sc) (Scanner_scan_context sc))
          = Value B).
  { unfold ScanTask_batches. simpl. apply Hvec. }
  set (t := InMemoryScanTask B (Scanner_scan_options sc) (Scanner_scan_context sc)) in *.
  destruct (ToTable_when_all_tasks_succeed schedule sc log [t] [B])
    as (Hrun & Htable); try done.
  { simpl. by rewrite Hbatches. }
  split; [done|]. split; [done|].
  rewrite Htable. simpl. by rewrite app_nil_r.
Qed.

(** ** The builder *)

(** C2, as amended.  On a builder made by a constructor and changed by any
    calls, when [Project(C)] succeeds and [Finish()] follows (with calls other
    than [Project] in between, if any), the scanner's schema has exactly the
    fields named [C], in request order, if [C] is not empty; if [C] is empty
    the scanner keeps the full schema of the builder. *)
Theorem Project_then_Finish_schema
    (b0 : ScannerBuilder) (before after : list BuilderCall) (C : list string) :
  constructed b0 ->
  (ScannerBuilder_Project C (run_calls before b0)).1 = OK ->
  Forall (fun c => is_Project c = false) after ->
  exists sc,
    ScannerBuilder_Finish
      (run_calls after (ScannerBuilder_Project C (run_calls before b0)).2) = Value sc /\
    (C <> [] ->
       Field_name <$> ScanOptions_schema (Scanner_scan_options sc) = C /\
       Forall2 (fun f name => Schema_GetFieldByName (ScannerBuilder_schema b0) name = Some f)
               (ScanOptions_schema (Scanner_scan_options sc)) C) /\
    (C = [] ->
       ScanOptions_schema (Scanner_scan_options sc) = ScannerBuilder_schema b0).
Proof.
  intros Hb0 Hok Hafter.
  set (b := run_calls before b0) in *.
  assert (Hschema : ScannerBuilder_schema b = ScannerBuilder_schema b0)
    by apply run_calls_schema.
  assert (Hinv : builder_invariant b)
    by by apply run_calls_invariant, constructed_invariant.
  unfold ScannerBuilder_Project in *. rewrite Hschema in *.
  destruct (Schema_CanReferenceFieldsByNames (ScannerBuilder_schema b0) C) eqn:Hcan;
    [|done].
  simpl.
  set (b1 := mkBuilder _ _ _ _ _).
  destruct (ScannerBuilder_Finish_options (run_calls after b1)) as (sc & Hsc & _ & Hopts).
  destruct (run_calls_projection after b1 Hafter) as [Hhas Hcols].
  rewrite Hhas, Hcols, run_calls_schema in Hopts. simpl in Hopts.
  exists sc. split; [done|]. rewrite Hopts. split.
  - intros HC. rewrite bool_decide_eq_false_2 by done. simpl.
    unfold ScanOptions_schema. simpl.
    replace (ScannerBuilder_schema b1) with (ScannerBuilder_schema b0) by done.
    by apply SchemaFromColumnNames_names.
  - intros HC. rewrite bool_decide_eq_true_2 by done. simpl.
    pose proof (run_calls_invariant after b1) as Hinv1.
    unfold builder_invariant in Hinv1. rewrite run_calls_schema in Hinv1.
    rewrite Hinv1; [done|]. apply Hinv.
Qed.

(** C3, as amended.  [MaterializedFields()] returns the field names of the
    schema, in schema order, followed by the names of the field references
    of the filter, in the order [FieldsInExpression] gives them: every schema
    field name and every referenced name is listed, and nothing is left out
    or merged, so a name that occurs twice in these sequences is listed
    twice.  (The code asserts that the references are plain names.) *)
Theorem MaterializedFields_concatenates (o : ScanOptions) :
  ScanOptions_MaterializedFields o =
    (fun names => (Field_name <$> ScanOptions_schema o) ++ names)
      <$> mapM FieldRef_name (FieldsInExpression (filter o)) /\
  (forall fields, ScanOptions_MaterializedFields o = Some fields ->
     (forall f, f ∈ ScanOptions_schema o -> Field_name f ∈ fields) /\
     (forall ref, ref ∈ FieldsInExpression (filter o) ->
        exists name, FieldRef_name ref = Some name /\ name ∈ fields) /\
     length fields =
       length (ScanOptions_schema o) + length (FieldsInExpression (filter o))).
Proof.
  assert (Hform : ScanOptions_MaterializedFields o =
    (fun names => (Field_name <$> ScanOptions_schema o) ++ names)
      <$> mapM FieldRef_name (FieldsInExpression (filter o))).
  { unfold ScanOptions_MaterializedFields.
    rewrite foldl_push_back_map. simpl.
    generalize (Field_name <$> ScanOptions_schema o).
    induction (FieldsInExpression (filter o)) as [|ref refs IH]; intros acc; simpl.
    - by rewrite app_nil_r.
    - destruct (FieldRef_name ref) as [name|]; simpl.
      + rewrite IH. unfold push_back.
        destruct (mapM FieldRef_name refs); simpl; [|done].
        by rewrite <- app_assoc.
      + clear IH. by induction refs. }
  split; [done|]. intros fields Hfields. rewrite Hform in Hfields.
  destruct (mapM FieldRef_name (FieldsInExpression (filter o))) as [names|] eqn:Hnames;
    simplify_eq/=.
  apply mapM_Some in Hnames. repeat split.
  - intros f Hf. apply elem_of_app. left. by apply list_elem_of_fmap_2.
  - intros ref Href.
    apply list_elem_of_lookup in Href as [i Hi].
    destruct (Forall2_lookup_l _ _ _ _ _ Hnames Hi) as (name & Hname & Hrefname).
    exists name. split; [done|]. apply elem_of_app. right.
    by apply list_elem_of_lookup_2 in Hname.
  - rewrite length_app, length_fmap. f_equal. symmetry. by eapply Forall2_length.
Qed.

(** C5.  [BatchSize(n)] fails with an Invalid status exactly when [n <= 0],
    and then changes nothing; when [n > 0] it succeeds and sets
    [batch_size] to [n].  [BatchSize(0)] and [BatchSize(-5)] fail,
    [BatchSize(1)] succeeds. *)
Theorem BatchSize_fails_exactly_when_nonpositive (n : Z) (b : ScannerBuilder) :
  ((n <= 0)%Z ->
     ScannerBuilder_BatchSize n b =
       (Status_Invalid ("BatchSize must be greater than 0, got " +:+ pretty n), b)) /\
  ((0 < n)%Z ->
     ScannerBuilder_BatchSize n b =
       (OK, ScannerBuilder_set_scan_options
              (ScanOptions_set_batch_size n (scan_options_ b)) b) /\
     batch_size (scan_options_ (ScannerBuilder_BatchSize n b).2) = n) /\
  ((exists msg, (ScannerBuilder_BatchSize n b).1 = Status_Invalid msg) <-> (n <= 0)%Z) /\
  ((ScannerBuilder_BatchSize n b).1 = OK <-> (0 < n)%Z) /\
  (ScannerBuilder_BatchSize 0 b).1 =
    Status_Invalid "BatchSize must be greater than 0, got 0" /\
  (ScannerBuilder_BatchSize (-5) b).1 =
    Status_Invalid "BatchSize must be greater than 0, got -5" /\
  (ScannerBuilder_BatchSize 1 b).1 = OK.
Proof.
  unfold ScannerBuilder_BatchSize. repeat split; try done.
  - intros Hn. by rewrite bool_decide_eq_true_2.
  - by rewrite bool_decide_eq_false_2 by lia.
  - by rewrite bool_decide_eq_false_2 by lia.
  - intros [msg Hmsg]. by case_bool_decide.
  - intros Hn. rewrite bool_decide_eq_true_2 by done. by eexists.
  - by case_bool_decide; [|lia].
  - intros Hn. by rewrite bool_decide_eq_false_2 by lia.
Qed.

Lemma Filter_check_refs_OK (refs : list FieldRef) (schema : Schema) :
  Filter_check_refs refs schema = OK <->
  forall ref, ref ∈ refs -> exists path, FieldRef_FindOne ref schema = Value path.
Proof.
  induction refs as [|ref refs IH]; simpl.
  - split; [|done]. intros _ ref Href. by apply not_elem_of_nil in Href.
  - destruct (FieldRef_FindOne ref schema) as [path|e] eqn:Hfind.
    + rewrite IH. split.
      * intros H ref' [->|Href]%elem_of_cons; [by eexists|by apply H].
      * intros H ref' Href. apply H. by right.
    + split; [done|]. intros H.
      destruct (H ref) as [path Hpath]; [by left|]. congruence.
Qed.

(** C6.  [Filter(e)] fails when a field reference of [e] is not resolved by
    [FindOne] against the schema of the builder.  When all are resolved, [e]
    is bound against that schema and the bound expression becomes the filter
    of the options (an error of the binding itself is returned as it is).
    Whenever the call fails, the builder, and with it the filter stored
    before, stays as it was. *)
Theorem Filter_binds_or_keeps_previous (e : Expression) (b : ScannerBuilder) :
  let schema := ScannerBuilder_schema b in
  ((exists ref err, ref ∈ FieldsInExpression e /\ FieldRef_FindOne ref schema = Failed err) ->
     exists err, ScannerBuilder_Filter e b = (NotOK err, b)) /\
  ((forall ref, ref ∈ FieldsInExpression e ->
      exists path, FieldRef_FindOne ref schema = Value path) ->
     match Expression_Bind e schema with
     | Value bound =>
         ScannerBuilder_Filter e b =
           (OK, ScannerBuilder_set_scan_options
                  (ScanOptions_set_filter bound (scan_options_ b)) b) /\
         filter (scan_options_ (ScannerBuilder_Filter e b).2) = bound
     | Failed err => ScannerBuilder_Filter e b = (NotOK err, b)
     end) /\
  (forall err b', ScannerBuilder_Filter e b = (NotOK err, b') ->
     b' = b /\ filter (scan_options_ b') = filter (scan_options_ b)).
Proof.
  intros schema. unfold ScannerBuilder_Filter. fold schema.
  pose proof (Filter_check_refs_OK (FieldsInExpression e) schema) as Hrefs.
  repeat split.
  - intros (ref & err & Href & Hfind).
    destruct (Filter_check_refs _ _) as [|err'].
    + destruct (proj1 Hrefs eq_refl ref Href) as [path Hpath]. congruence.
    + by exists err'.
  - intros Hall. apply Hrefs in Hall. rewrite Hall.
    by destruct (Expression_Bind e schema).
  - destruct (Filter_check_refs _ _); [|by intros; simplify_eq].
    destruct (Expression_Bind e schema); by intros; simplify_eq.
  - destruct (Filter_check_refs _ _); [|by intros; simplify_eq].
    destruct (Expression_Bind e schema); by intros; simplify_eq.
Qed.

(** C9.  Both constructors leave in [ScanOptions.filter] the literal-true
    expression bound against the schema of the builder (binding a literal
    resolves no field and succeeds, as the constructors assert), and calls
    other than [Filter] keep it: a scanner finished without any [Filter]
    call carries that bound filter. *)
Theorem constructors_bind_literal_true
    (b0 : ScannerBuilder) (calls : list BuilderCall) (bound : Expression) :
  constructed b0 ->
  Filter_check_refs (FieldsInExpression literal_true) (ScannerBuilder_schema b0) = OK ->
  Expression_Bind literal_true (ScannerBuilder_schema b0) = Value bound ->
  Forall (fun c => is_Filter c = false) calls ->
  filter (scan_options_ b0) = bound /\
  filter (scan_options_ (run_calls calls b0)) = bound /\
  exists sc, ScannerBuilder_Finish (run_calls calls b0) = Value sc /\
             filter (Scanner_scan_options sc) = bound.
Proof.
  intros Hb0 Hrefs Hbind Hcalls.
  assert (H0 : filter (scan_options_ b0) = bound).
  { destruct Hb0 as [dataset ctx|schema fragment ctx];
      unfold ScannerBuilder_of_dataset, ScannerBuilder_of_fragment in *;
      match goal with
      | |- context [ScannerBuilder_Filter literal_true ?raw] =>
          assert (Hs : ScannerBuilder_schema (ScannerBuilder_Filter literal_true raw).2
                       = ScannerBuilder_schema raw)
            by exact (run_calls_schema [CallFilter literal_true] raw);
          rewrite Hs in Hrefs, Hbind;
          unfold ScannerBuilder_Filter; rewrite Hrefs, Hbind
      end; done. }
  assert (H1 : filter (scan_options_ (run_calls calls b0)) = bound)
    by by rewrite run_calls_filter.
  split; [done|]. split; [done|].
  destruct (ScannerBuilder_Finish_options (run_calls calls b0)) as (sc & Hsc & _ & Hopts).
  exists sc. split; [done|]. rewrite Hopts.
  by destruct (has_projection_ _ && _).
Qed.

(** ** The sequence of fragments *)

Lemma FragmentIterator_drain_child (child : list Fragment) (predicate : Expression)
    (fuel : nat) (log : EnumLog) :
  length child < fuel ->
  FragmentIterator_drain fuel (FragmentFlattenIterator child [] predicate) log
  = (child, log).
Proof.
  revert fuel. induction child as [|f child IH]; intros fuel Hfuel;
    (destruct fuel as [|fuel]; [simpl in Hfuel; lia|]); simpl; [done|].
  rewrite IH by (simpl in Hfuel; lia). done.
Qed.

Lemma FragmentIterator_drain_vector (v : list Fragment) (fuel : nat) (log : EnumLog) :
  length v < fuel ->
  FragmentIterator_drain fuel (FragmentVectorIterator v) log = (v, log).
Proof.
  revert fuel. induction v as [|f v IH]; intros fuel Hfuel;
    (destruct fuel as [|fuel]; [simpl in Hfuel; lia|]); simpl; [done|].
  rewrite IH by (simpl in Hfuel; lia). done.
Qed.

(** C8.  A scanner made from a single fragment returns the one-element
    sequence of that fragment.  A scanner made from a dataset returns a
    sequence whose construction asks the dataset nothing (the enumeration
    log is unchanged); the dataset is asked, once and with the filter of the
    options, when the sequence is advanced, and the sequence then yields the
    fragments of the dataset for that filter, in order. *)
Theorem GetFragments_single_or_lazy (sc : Scanner) (log : EnumLog) :
  match Scanner_source sc with
  | FromFragment fragment =>
      Scanner_GetFragments sc log = (Value (FragmentVectorIterator [fragment]), log) /\
      FragmentIterator_elements (FragmentVectorIterator [fragment]) = [fragment] /\
      forall fuel, 1 < fuel ->
        FragmentIterator_drain fuel (FragmentVectorIterator [fragment]) log
        = ([fragment], log)
  | FromDataset dataset =>
      let bound_filter := filter (Scanner_scan_options sc) in
      let fragments := Dataset_GetFragments dataset bound_filter in
      exists it,
        Scanner_GetFragments sc log = (Value it, log) /\
        FragmentIterator_elements it = fragments /\
        (FragmentIterator_Next it log).2 = log ++ [(dataset, bound_filter)] /\
        (FragmentIterator_Next it log).1.1 = head fragments /\
        forall fuel, length fragments < fuel ->
          FragmentIterator_drain fuel it log
          = (fragments, log ++ [(dataset, bound_filter)])
  end.
Proof.
  unfold Scanner_GetFragments. destruct (Scanner_source sc) as [dataset|fragment].
  - simpl. eexists. split; [done|]. simpl. rewrite app_nil_r. split; [done|].
    unfold push_back.
    destruct (Dataset_GetFragments dataset _) as [|f child] eqn:Hfr; simpl.
    + repeat split. intros fuel Hfuel. destruct fuel; [lia|]. simpl.
      by rewrite Hfr.
    + repeat split. intros fuel Hfuel. destruct fuel; [lia|]. simpl.
      rewrite Hfr. rewrite FragmentIterator_drain_child by lia. done.
  - repeat split. intros fuel Hfuel.
    by apply FragmentIterator_drain_vector.
Qed.

End ScanProperties.

(** ** How the calls on a builder compose *)

Section BuilderHistory.
Context `{EL : ExpressionLayer} `{DL : DataLayer} `{FL : @FragmentLayer EL DL}.

Lemma run_calls_cons (c : BuilderCall) (calls : list BuilderCall) (b : ScannerBuilder) :
  run_calls (c :: calls) b = run_calls calls (run_call c b).2.
Proof. done. Qed.

Lemma run_call_failed (c : BuilderCall) (b : ScannerBuilder) :
  (run_call c b).1 <> OK -> (run_call c b).2 = b.
Proof.
  destruct c; simpl.
  - unfold ScannerBuilder_Project. by destruct (Schema_CanReferenceFieldsByNames _ _).
  - unfold ScannerBuilder_Filter. destruct (Filter_check_refs _ _); [|done].
    by destruct (Expression_Bind _ _).
  - done.
  - unfold ScannerBuilder_BatchSize. by case_bool_decide.
Qed.

(** A call that returns an error changes nothing: after any sequence of
    calls that each fail on a builder, the builder is what it was, and
    [Finish()] yields the scanner it would have yielded before. *)
Theorem failed_calls_change_nothing (calls : list BuilderCall) (b : ScannerBuilder) :
  Forall (fun c => (run_call c b).1 <> OK) calls ->
  run_calls calls b = b /\
  ScannerBuilder_Finish (run_calls calls b) = ScannerBuilder_Finish b.
Proof.
  intros Hfail.
  assert (H : run_calls calls b = b).
  { induction Hfail as [|c calls Hc _ IH]; [done|].
    rewrite run_calls_cons, run_call_failed by done. apply IH. }
  by rewrite H.
Qed.

(** The builder records the projection of the last [Project] call that
    succeeded. *)
Lemma run_calls_effective_projection (calls : list BuilderCall) (b : ScannerBuilder) :
  (if has_projection_ (run_calls calls b)
   then Some (project_columns_ (run_calls calls b)) else None)
  = effective_projection (ScannerBuilder_schema b) calls
      (if has_projection_ b then Some (project_columns_ b) else None).
Proof.
  unfold effective_projection. revert b.
  induction calls as [|c calls IH]; intros b; [done|].
  rewrite run_calls_cons, IH. simpl.
  assert (Hschema : ScannerBuilder_schema (run_call c b).2 = ScannerBuilder_schema b)
    by exact (run_calls_schema [c] b).
  rewrite Hschema. f_equal.
  destruct c; simpl; try done.
  - unfold ScannerBuilder_Project.
    by destruct (Schema_CanReferenceFieldsByNames _ _).
  - unfold ScannerBuilder_Filter. destruct (Filter_check_refs _ _); [|done].
    by destruct (Expression_Bind _ _).
  - unfold ScannerBuilder_BatchSize. by case_bool_decide.
Qed.

(** The schema of the finished scanner follows the call history: it is the
    projection on the columns of the last [Project] call that succeeded, and
    the full schema of the builder when no [Project] call succeeded or the
    last one that did had no columns.  A [Project] call that fails leaves the
    earlier projection in effect. *)
Theorem Finish_schema_follows_last_successful_Project
    (b0 : ScannerBuilder) (calls : list BuilderCall) :
  constructed b0 ->
  exists sc,
    ScannerBuilder_Finish (run_calls calls b0) = Value sc /\
    ScanOptions_schema (Scanner_scan_options sc) =
      projected_schema (ScannerBuilder_schema b0)
        (effective_projection (ScannerBuilder_schema b0) calls None).
Proof.
  intros Hb0.
  destruct (ScannerBuilder_Finish_options (run_calls calls b0)) as (sc & Hsc & _ & Hopts).
  exists sc. split; [done|]. rewrite Hopts, run_calls_schema.
  pose proof (run_calls_effective_projection calls b0) as Heff.
  assert (Hfresh : has_projection_ b0 = false).
  { destruct Hb0; unfold ScannerBuilder_of_dataset, ScannerBuilder_of_fragment;
      match goal with
      | |- context [ScannerBuilder_Filter literal_true ?raw] =>
          exact (proj1 (run_calls_projection [CallFilter literal_true] raw
                          ltac:(repeat constructor)))
      end. }
  rewrite Hfresh in Heff. rewrite <- Heff.
  pose proof (run_calls_invariant calls b0 (constructed_invariant b0 Hb0)) as Hinv.
  unfold builder_invariant in Hinv. rewrite run_calls_schema in Hinv.
  destruct (has_projection_ (run_calls calls b0)); simpl; [|done].
  destruct (project_columns_ (run_calls calls b0)) as [|name rest]; simpl; done.
Qed.

(** [Filter(e)] validates and binds against the full schema of the builder,
    whatever projections were requested before, and the bound expression is
    the filter of the finished scanner whatever calls other than [Filter]
    follow, a projection that leaves out the columns of [e] included. *)
Theorem Filter_binds_against_full_schema
    (b0 : ScannerBuilder) (before after : list BuilderCall)
    (e bound : Expression) :
  Filter_check_refs (FieldsInExpression e) (ScannerBuilder_schema b0) = OK ->
  Expression_Bind e (ScannerBuilder_schema b0) = Value bound ->
  Forall (fun c => is_Filter c = false) after ->
  (ScannerBuilder_Filter e (run_calls before b0)).1 = OK /\
  exists sc,
    ScannerBuilder_Finish
      (run_calls after (ScannerBuilder_Filter e (run_calls before b0)).2) = Value sc /\
    filter (Scanner_scan_options sc) = bound.
Proof.
  intros Hrefs Hbind Hafter.
  set (b := run_calls before b0).
  assert (Hschema : ScannerBuilder_schema b = ScannerBuilder_schema b0)
    by apply run_calls_schema.
  unfold ScannerBuilder_Filter. rewrite Hschema, Hrefs, Hbind. simpl.
  split; [done|].
  set (b1 := ScannerBuilder_set_scan_options _ b).
  destruct (ScannerBuilder_Finish_options (run_calls after b1)) as (sc & Hsc & _ & Hopts).
  exists sc. split; [done|]. rewrite Hopts.
  assert (Hf : filter (scan_options_ (run_calls after b1)) = bound)
    by by rewrite run_calls_filter.
  by destruct (has_projection_ _ && _).
Qed.

Lemma run_calls_batch_size (calls : list BuilderCall) (b : ScannerBuilder) :
  batch_size (scan_options_ (run_calls calls b)) =
    effective_batch_size calls (batch_size (scan_options_ b)).
Proof.
  unfold effective_batch_size. revert b.
  induction calls as [|c calls IH]; intros b; [done|].
  rewrite run_calls_cons, IH. simpl. f_equal.
  destruct c; simpl; try done.
  - unfold ScannerBuilder_Project.
    by destruct (Schema_CanReferenceFieldsByNames _ _).
  - unfold ScannerBuilder_Filter. destruct (Filter_check_refs _ _); [|done].
    by destruct (Expression_Bind _ _).
  - unfold ScannerBuilder_BatchSize. by case_bool_decide.
Qed.

Lemma effective_batch_size_positive (calls : list BuilderCall) (init : Z) :
  (0 < init)%Z -> (0 < effective_batch_size calls init)%Z.
Proof.
  unfold effective_batch_size. revert init.
  induction calls as [|c calls IH]; intros init Hinit; simpl; [done|].
  apply IH. destruct c; try done. case_bool_decide; lia.
Qed.

(** The batch size of the finished scanner is the argument of the last
    [BatchSize] call with a positive argument, or the initial batch size when
    there was none; so it is positive whenever the initial one is, whatever
    the calls (rejected ones included) and whatever projection is applied by
    [Finish()]. *)
Theorem batch_size_stays_positive (b0 : ScannerBuilder) (calls : list BuilderCall) :
  constructed b0 ->
  (0 < kDefaultBatchSize)%Z ->
  exists sc,
    ScannerBuilder_Finish (run_calls calls b0) = Value sc /\
    batch_size (Scanner_scan_options sc) = effective_batch_size calls kDefaultBatchSize /\
    (0 < batch_size (Scanner_scan_options sc))%Z.
Proof.
  intros Hb0 Hdefault.
  assert (H0 : batch_size (scan_options_ b0) = kDefaultBatchSize).
  { destruct Hb0; unfold ScannerBuilder_of_dataset, ScannerBuilder_of_fragment;
      match goal with
      | |- context [ScannerBuilder_Filter literal_true ?raw] =>
          exact (run_calls_batch_size [CallFilter literal_true] raw)
      end. }
  destruct (ScannerBuilder_Finish_options (run_calls calls b0)) as (sc & Hsc & _ & Hopts).
  exists sc. split; [done|].
  assert (Hsize : batch_size (Scanner_scan_options sc)
                  = effective_batch_size calls kDefaultBatchSize).
  { rewrite Hopts, <- H0, <- run_calls_batch_size.
    by destruct (has_projection_ _ && _). }
  split; [done|]. rewrite Hsize. by apply effective_batch_size_positive.
Qed.



(** [MaterializedFields] as one concatenation. *)
Lemma MaterializedFields_closed_form (o : ScanOptions) :
  ScanOptions_MaterializedFields o =
    (fun names => (Field_name <$> ScanOptions_schema o) ++ names)
      <$> mapM FieldRef_name (FieldsInExpression (filter o)).
Proof.
  unfold ScanOptions_MaterializedFields.
  rewrite foldl_push_back_map. simpl.
  generalize (Field_name <$> ScanOptions_schema o).
  induction (FieldsInExpression (filter o)) as [|ref refs IH]; intros acc; simpl.
  - by rewrite app_nil_r.
  - destruct (FieldRef_name ref) as [name|]; simpl.
    + rewrite IH. unfold push_back.
      destruct (mapM FieldRef_name refs); simpl; [|done].
      by rewrite <- app_assoc.
    + clear IH. by induction refs.
Qed.

(** After [Project(C)] with [C] not empty and [Filter(e)], both accepted, the
    materialized fields of the finished scanner are the columns [C], in
    request order, followed by the names referenced by the bound filter: a
    column that the filter needs is listed even when the projection leaves it
    out. *)
Theorem MaterializedFields_after_Project_and_Filter
    (b0 : ScannerBuilder) (before : list BuilderCall) (C : list string)
    (e bound : Expression) (names : list string) :
  constructed b0 ->
  C <> [] ->
  Schema_CanReferenceFieldsByNames (ScannerBuilder_schema b0) C = OK ->
  Filter_check_refs (FieldsInExpression e) (ScannerBuilder_schema b0) = OK ->
  Expression_Bind e (ScannerBuilder_schema b0) = Value bound ->
  mapM FieldRef_name (FieldsInExpression bound) = Some names ->
  exists sc,
    ScannerBuilder_Finish
      (run_calls (before ++ [CallProject C; CallFilter e]) b0) = Value sc /\
    Field_name <$> ScanOptions_schema (Scanner_scan_options sc) = C /\
    filter (Scanner_scan_options sc) = bound /\
    ScanOptions_MaterializedFields (Scanner_scan_options sc) = Some (C ++ names).
Proof.
  intros Hb0 HC Hcan Hrefs Hbind Hnames.
  set (b := run_calls before b0).
  assert (Hschema : ScannerBuilder_schema b = ScannerBuilder_schema b0)
    by apply run_calls_schema.
  set (b1 := mkBuilder (source_ b) (scan_options_ b) (scan_context_ b) true C).
  assert (Hp : ScannerBuilder_Project C b = (OK, b1)).
  { unfold ScannerBuilder_Project. by rewrite Hschema, Hcan. }
  assert (Hs1 : ScannerBuilder_schema b1 = ScannerBuilder_schema b0) by exact Hschema.
  set (b2 := ScannerBuilder_set_scan_options
               (ScanOptions_set_filter bound (scan_options_ b1)) b1).
  assert (Hf : ScannerBuilder_Filter e b1 = (OK, b2)).
  { unfold ScannerBuilder_Filter. by rewrite Hs1, Hrefs, Hbind. }
  assert (Hrun : run_calls (before ++ [CallProject C; CallFilter e]) b0 = b2).
  { unfold run_calls. rewrite foldl_app. fold (run_calls before b0). fold b.
    simpl. rewrite Hp. simpl. by rewrite Hf. }
  rewrite Hrun.
  destruct (ScannerBuilder_Finish_options b2) as (sc & Hsc & _ & Hopts).
  simpl in Hopts. rewrite bool_decide_eq_false_2 in Hopts by done. simpl in Hopts.
  assert (Hs2 : ScannerBuilder_schema b2 = ScannerBuilder_schema b0) by exact Hschema.
  rewrite Hs2 in Hopts.
  destruct (SchemaFromColumnNames_names _ _ Hcan) as [Hcols _].
  exists sc. split; [done|].
  assert (Hsch : Field_name <$> ScanOptions_schema (Scanner_scan_options sc) = C)
    by by rewrite Hopts.
  assert (Hfil : filter (Scanner_scan_options sc) = bound) by by rewrite Hopts.
  split; [done|]. split; [done|].
  by rewrite MaterializedFields_closed_form, Hsch, Hfil, Hnames.
Qed.

(** [Filter(e)] returns the error that [FindOne] gives for the first field
    reference of [e], in the order of [FieldsInExpression], that does not
    resolve; later references are not looked at. *)
Theorem Filter_reports_first_unresolved_reference
    (e : Expression) (b : ScannerBuilder)
    (pre post : list FieldRef) (ref : FieldRef) (err : Error) :
  FieldsInExpression e = pre ++ ref :: post ->
  Forall (fun r => exists path, FieldRef_FindOne r (ScannerBuilder_schema b) = Value path)
         pre ->
  FieldRef_FindOne ref (ScannerBuilder_schema b) = Failed err ->
  ScannerBuilder_Filter e b = (NotOK err, b).
Proof.
  intros Hsplit Hpre Hfail. unfold ScannerBuilder_Filter. rewrite Hsplit.
  assert (H : Filter_check_refs (pre ++ ref :: post) (ScannerBuilder_schema b)
              = NotOK err).
  { clear Hsplit. induction Hpre as [|r pre [path Hr] _ IH]; simpl.
    - by rewrite Hfail.
    - rewrite Hr. apply IH. }
  by rewrite H.
Qed.

End BuilderHistory.

(** ** More on the table assembly *)

Section TableAssembly.
Context `{EL : ExpressionLayer} `{DL : DataLayer} `{FL : @FragmentLayer EL DL}.






(** A scan that yields no scan task at all (a dataset without fragments
    for the filter) makes [ToTable] build the table from no batches, in a
    serial and in a threaded context, whatever the pool would do. *)
Theorem ToTable_of_no_scan_tasks (schedule : list nat) (sc : Scanner) (log : EnumLog) :
  Scanner_fragments sc = [] ->
  (Scanner_Scan sc log).1 = Value [] /\
  ToTable_assemble schedule [] (Scanner_scan_context sc) = (OK, mkState []) /\
  Scanner_ToTable schedule sc log =
    Table_FromRecordBatches (ScanOptions_schema (Scanner_scan_options sc)) [].
Proof.
  intros Hnone.
  assert (Hscan : (Scanner_Scan sc log).1 = Value []).
  { rewrite Scanner_Scan_fragments. simpl. by rewrite Hnone. }
  assert (Hrun : ToTable_assemble schedule [] (Scanner_scan_context sc)
                 = (OK, mkState [])).
  { unfold ToTable_assemble, ScanContext_TaskGroup.
    destruct (use_threads _); simpl; [|done].
    unfold TaskGroup_Finish. simpl.
    induction schedule as [|id schedule IH]; simpl; [done|].
    apply IH. }
  split; [done|]. split; [done|].
  unfold Scanner_ToTable. by rewrite Hscan, Hrun.
Qed.

(** When the scan tasks all succeed, the task group of a threaded context,
    for every completion order of the pool, and the task group of a serial
    context leave the same assembly state and the same status: the table does
    not depend on the use of threads. *)
Theorem ToTable_assemble_same_with_and_without_threads
    (schedule schedule' : list nat) (tasks : list ScanTask)
    (outs : list RecordBatchVector) :
  ScanTask_batches <$> tasks = Value <$> outs ->
  schedule ≡ₚ seq 0 (length tasks) ->
  ToTable_assemble schedule (Value <$> tasks) (mkScanContext true)
  = ToTable_assemble schedule' (Value <$> tasks) (mkScanContext false) /\
  FlattenRecordBatchVector
    (batches (ToTable_assemble schedule (Value <$> tasks) (mkScanContext true)).2)
  = concat outs.
Proof.
  intros Hout Hperm.
  assert (Hlen : length tasks = length outs).
  { apply (f_equal length) in Hout. by rewrite !length_fmap in Hout. }
  rewrite !ToTable_assemble_run, !(run_in_order_success _ outs) by done.
  unfold execution_order. simpl.
  rewrite !Emplace_in_order_complete by by rewrite <- Hlen.
  split; [done|]. simpl. apply FlattenRecordBatchVector_concat.
Qed.

Lemma first_failure_in_submission_order (done_ pre post : list ScanTask)
    (t : ScanTask) (e : Error) :
  Forall (fun t' => exists local, ScanTask_batches t' = Value local) pre ->
  ScanTask_batches t = Failed e ->
  first_failure (done_ ++ pre ++ t :: post)
                (seq (length done_) (length (pre ++ t :: post))) = Some e.
Proof.
  intros Hpre Hfail. revert done_.
  induction Hpre as [|t' pre [local Hlocal] _ IH]; intros done_; simpl.
  - rewrite list_lookup_middle by done. simpl. by rewrite Hfail.
  - rewrite list_lookup_middle by done. simpl. rewrite Hlocal.
    specialize (IH (done_ ++ [t'])).
    rewrite length_app, <- app_assoc in IH. simpl in IH.
    by rewrite Nat.add_1_r in IH.
Qed.

(** In a serial context the tasks run in submission order, so when tasks
    fail [ToTable] returns the error of the failing task with the lowest
    index, whatever the later tasks do. *)
Theorem serial_ToTable_returns_error_of_first_failing_task
    (schedule : list nat) (sc : Scanner) (log : EnumLog)
    (pre post : list ScanTask) (t : ScanTask) (e : Error) :
  use_threads (Scanner_scan_context sc) = false ->
  (Scanner_Scan sc log).1 = Value (Value <$> (pre ++ t :: post)) ->
  Forall (fun t' => exists local, ScanTask_batches t' = Value local) pre ->
  ScanTask_batches t = Failed e ->
  Scanner_ToTable schedule sc log = Failed e.
Proof.
  intros Hserial Hscan Hpre Hfail.
  unfold Scanner_ToTable. rewrite Hscan, ToTable_assemble_run.
  pose proof (run_in_order_status (pre ++ t :: post)
                (execution_order (Scanner_scan_context sc) schedule
                   (length (pre ++ t :: post))) OK (mkState [])) as Hst.
  unfold execution_order in *. rewrite Hserial in *.
  pose proof (first_failure_in_submission_order [] pre post t e Hpre Hfail) as Hfirst.
  simpl in Hfirst. rewrite Hfirst in Hst.
  destruct (run_in_order _ _ _) as [s st]. simpl in Hst. by subst s.
Qed.

End TableAssembly.

(* ================================================================== *)
(** * Part III: the statements on concrete scans *)
(* ================================================================== *)

#[local] Existing Instance SampleExpressionLayer.
#[local] Existing Instance SampleDataLayer.
#[local] Existing Instance SampleFragmentLayer.

(** Three fragments of one batch each, threads enabled, completion in the
    reverse of the submission order: the table has the batches in submission
    order. *)
Lemma ToTable_reverse_completion_witness :
  (Scanner_Scan (sample_scanner true) []).1 = Value (Value <$> sample_tasks) /\
  ScanTask_batches <$> sample_tasks = Value <$> [["A"]; ["B"]; ["C"]] /\
  [2; 1; 0] ≡ₚ seq 0 (length sample_tasks) /\
  Scanner_ToTable [2; 1; 0] (sample_scanner true) [] =
    Value (sample_schema, ["A"; "B"; "C"]).
Proof.
  assert (Hperm : [2; 1; 0] ≡ₚ seq 0 (length sample_tasks))
    by exact (reverse_Permutation [0; 1; 2]).
  split; [reflexivity|]. split; [reflexivity|]. split; [exact Hperm|].
  exact (proj2 (proj2 (proj2
    (ToTable_batches_in_submission_order [2; 1; 0] (sample_scanner true) []
       sample_tasks [["A"]; ["B"]; ["C"]] eq_refl eq_refl Hperm)))).
Defined.

(** A projection on [c] and [a], in that order, then [BatchSize(64)] and
    [Finish()]: the scanner's schema is [c; a]. *)
Lemma Project_c_a_witness :
  (ScannerBuilder_Project ["c"; "a"] sample_builder).1 = OK /\
  exists sc,
    ScannerBuilder_Finish
      (run_calls [CallBatchSize 64] (ScannerBuilder_Project ["c"; "a"] sample_builder).2)
    = Value sc /\
    Field_name <$> ScanOptions_schema (Scanner_scan_options sc) = ["c"; "a"].
Proof.
  split; [reflexivity|].
  destruct (Project_then_Finish_schema sample_builder [] [CallBatchSize 64] ["c"; "a"])
    as (sc & Hsc & Hne & _).
  - constructor.
  - reflexivity.
  - repeat constructor.
  - exists sc. split; [exact Hsc|]. apply Hne. discriminate.
Defined.

(** The empty projection succeeds, and [Finish()] then keeps the three
    fields of the full schema: the scanner's schema is not the empty list of
    requested columns. *)
Lemma Project_empty_keeps_full_schema :
  (ScannerBuilder_Project [] sample_builder).1 = OK /\
  exists sc,
    ScannerBuilder_Finish (ScannerBuilder_Project [] sample_builder).2 = Value sc /\
    Field_name <$> ScanOptions_schema (Scanner_scan_options sc) = ["a"; "b"; "c"] /\
    Field_name <$> ScanOptions_schema (Scanner_scan_options sc) <> [].
Proof.
  split; [reflexivity|]. eexists. split; [reflexivity|]. split; [reflexivity|].
  discriminate.
Qed.

(** Projection on [a] and [b] with the filter [a == c]: the materialized
    fields list [a] twice, once for the schema and once for the filter. *)
Lemma MaterializedFields_lists_a_name_twice :
  exists sc,
    ScannerBuilder_Finish
      (run_calls [CallProject ["a"; "b"]; CallFilter a_equals_c] sample_builder)
    = Value sc /\
    Field_name <$> ScanOptions_schema (Scanner_scan_options sc) = ["a"; "b"] /\
    (FieldRef_name <$> FieldsInExpression (filter (Scanner_scan_options sc)))
      = [Some "a"; Some "c"] /\
    ScanOptions_MaterializedFields (Scanner_scan_options sc)
      = Some ["a"; "b"; "a"; "c"] /\
    ~ NoDup ["a"; "b"; "a"; "c"].
Proof.
  eexists. split; [reflexivity|]. repeat split; try reflexivity.
  intros Hnodup. apply NoDup_cons in Hnodup as [Hnotin _].
  apply Hnotin. apply list_elem_of_In. simpl. tauto.
Qed.

(** The second of three tasks fails, threads enabled, completion in reverse
    order: [ToTable] returns the error of that task and no table. *)
Lemma ToTable_failing_task_witness :
  (Scanner_Scan (failing_scanner true) []).1 = Value (Value <$> failing_tasks) /\
  Scanner_ToTable [2; 1; 0] (failing_scanner true) [] = Failed io_error.
Proof.
  split; [reflexivity|].
  destruct (ToTable_failure_returns_error_and_no_table
              [2; 1; 0] (failing_scanner true) [] _ eq_refl) as [_ Hfail].
  destruct (Hfail failing_tasks eq_refl (reverse_Permutation [0; 1; 2]))
    as (e & tg & st & st' & _ & _ & Hfirst & Hres).
  - eexists _, io_error. split.
    + apply list_elem_of_In. simpl. right. left. reflexivity.
    + reflexivity.
  - vm_compute in Hfirst. injection Hfirst as <-. exact Hres.
Defined.

(** A serial scan whose first task fails while it runs and whose second
    fragment cannot be opened: the task group holds the error of the task,
    which [Finish()] would return, but [ToTable] returns the error of the
    enumeration, without a call of [Finish()]. *)
Lemma ToTable_enumeration_error_is_not_the_error_of_Finish :
  exists t tg st st',
    (Scanner_Scan broken_scanner []).1 = Value [Value t; Failed open_error] /\
    ScanTask_batches t = Failed io_error /\
    ToTable_loop [Value t; Failed open_error] 0
                 (ScanContext_TaskGroup (Scanner_scan_context broken_scanner))
                 (mkState [])
      = (NotOK open_error, tg, st) /\
    TaskGroup_Finish [0] tg st = (NotOK io_error, st') /\
    Scanner_ToTable [0] broken_scanner [] = Failed open_error /\
    open_error <> io_error.
Proof.
  eexists _, _, _, _. repeat split; try reflexivity. discriminate.
Qed.

(** Three batches in memory: [ToTable] returns them as they are, with and
    without threads. *)
Lemma InMemory_scan_roundtrip_witness :
  Scanner_ToTable [0] (in_memory_scanner false) [] =
    Value (sample_schema, ["A"; "B"; "C"]) /\
  Scanner_ToTable [0] (in_memory_scanner true) [] =
    Value (sample_schema, ["A"; "B"; "C"]).
Proof.
  split.
  - exact (proj2 (proj2
      (InMemory_scan_roundtrip ["A"; "B"; "C"] [0] (in_memory_scanner false) []
         eq_refl (Permutation_refl _)))).
  - exact (proj2 (proj2
      (InMemory_scan_roundtrip ["A"; "B"; "C"] [0] (in_memory_scanner true) []
         eq_refl (Permutation_refl _)))).
Defined.

(** A builder on a fragment, then [Project] and [BatchSize], and a builder
    on a dataset, then [UseThreads]: the filter is the bound literal true, in
    the builder and in the finished scanner. *)
Lemma constructors_bind_literal_true_witness :
  (filter (scan_options_ sample_builder) = SLiteral true /\
   exists sc,
     ScannerBuilder_Finish
       (run_calls [CallProject ["a"]; CallBatchSize 10] sample_builder) = Value sc /\
     filter (Scanner_scan_options sc) = SLiteral true) /\
  (filter (scan_options_ sample_dataset_builder) = SLiteral true /\
   exists sc,
     ScannerBuilder_Finish
       (run_calls [CallUseThreads false] sample_dataset_builder) = Value sc /\
     filter (Scanner_scan_options sc) = SLiteral true).
Proof.
  split.
  - destruct (constructors_bind_literal_true sample_builder
                [CallProject ["a"]; CallBatchSize 10] (SLiteral true))
      as (H0 & _ & Hsc).
    + constructor.
    + reflexivity.
    + reflexivity.
    + repeat constructor.
    + split; [exact H0|exact Hsc].
  - destruct (constructors_bind_literal_true sample_dataset_builder
                [CallUseThreads false] (SLiteral true))
      as (H0 & _ & Hsc).
    + constructor.
    + reflexivity.
    + reflexivity.
    + repeat constructor.
    + split; [exact H0|exact Hsc].
Defined.

(** ** More runs *)

(** A filter on a column that the schema does not have fails, and the
    builder keeps the bound literal true. *)
Example Filter_unknown_column_fails :
  ScannerBuilder_Filter (SField (RefName "zzz")) sample_builder =
    (NotOK (mkError Invalid "No match for FieldRef.Name(zzz)"), sample_builder).
Proof. reflexivity. Qed.

(** A filter on known columns is bound: the references carry the index and
    the type of their fields. *)
Example Filter_known_columns_binds :
  filter (scan_options_ (ScannerBuilder_Filter a_equals_c sample_builder).2) =
    SCall "equal" (SBound (RefName "a") 0 int64) (SBound (RefName "c") 2 float64).
Proof. reflexivity. Qed.

(** A projection on a column that the schema does not have fails. *)
Example Project_unknown_column_fails :
  (ScannerBuilder_Project ["a"; "zzz"] sample_builder).1 =
    NotOK (mkError NameResolution
             "Field named 'zzz' not found or not unique in the schema.").
Proof. reflexivity. Qed.

(** The dataset of a lazy sequence is asked at the first [Next()]. *)
Example GetFragments_asks_at_first_Next :
  exists it,
    Scanner_GetFragments (sample_scanner false) [] = (Value it, []) /\
    FragmentIterator_Next it [] =
      (Some (InMemory ["A"]),
       FragmentFlattenIterator [InMemory ["B"]; InMemory ["C"]] [] (SLiteral true),
       [(sample_dataset, SLiteral true)]).
Proof. eexists. split; reflexivity. Qed.

(** Out-of-order stores: the task with index 2 completes first. *)
Example Emplace_out_of_order :
  batches (Emplace ["A"] 0 (Emplace ["C"] 2 (mkState []))) = [["A"]; []; ["C"]].
Proof. reflexivity. Qed.

(** ** Runs of the statements on the call history and the assembly *)

(** Three rejected calls in a row leave the builder as it was. *)
Lemma failed_calls_change_nothing_witness :
  run_calls [CallBatchSize 0; CallProject ["zzz"]; CallFilter (SField (RefName "zzz"))]
            sample_builder = sample_builder.
Proof.
  refine (proj1 (failed_calls_change_nothing
                   [CallBatchSize 0; CallProject ["zzz"]; CallFilter (SField (RefName "zzz"))]
                   sample_builder _)).
  repeat (constructor; [intros H; vm_compute in H; discriminate H|]).
  constructor.
Defined.

(** [Project(c, a)] accepted, then [Project(zzz)] rejected: the scanner's
    schema is [c; a]. *)
Lemma Finish_schema_follows_last_successful_Project_witness :
  exists sc,
    ScannerBuilder_Finish
      (run_calls [CallProject ["b"]; CallProject ["c"; "a"]; CallProject ["zzz"];
                  CallBatchSize 5] sample_builder) = Value sc /\
    ScanOptions_schema (Scanner_scan_options sc) = [mkField "c" float64; mkField "a" int64].
Proof.
  exact (Finish_schema_follows_last_successful_Project sample_builder
           [CallProject ["b"]; CallProject ["c"; "a"]; CallProject ["zzz"];
            CallBatchSize 5]
           (constructed_of_fragment _ _ _)).
Defined.

(** A filter on [c] between two projections that leave [c] out is bound
    against the full schema and reaches the scanner. *)
Lemma Filter_binds_against_full_schema_witness :
  exists sc,
    ScannerBuilder_Finish
      (run_calls [CallProject ["b"]]
         (ScannerBuilder_Filter (SField (RefName "c"))
            (run_calls [CallProject ["a"; "b"]] sample_builder)).2) = Value sc /\
    filter (Scanner_scan_options sc) = SBound (RefName "c") 2 float64.
Proof.
  exact (proj2 (Filter_binds_against_full_schema sample_builder
                  [CallProject ["a"; "b"]] [CallProject ["b"]]
                  (SField (RefName "c")) (SBound (RefName "c") 2 float64)
                  eq_refl eq_refl ltac:(repeat constructor))).
Defined.

(** Rejected batch sizes, then 64, then a projection: the scanner's batch
    size is 64. *)
Lemma batch_size_stays_positive_witness :
  exists sc,
    ScannerBuilder_Finish
      (run_calls [CallBatchSize (-3); CallBatchSize 64; CallBatchSize 0; CallProject ["a"]]
                 sample_builder) = Value sc /\
    batch_size (Scanner_scan_options sc) = 64%Z /\
    (0 < batch_size (Scanner_scan_options sc))%Z.
Proof.
  exact (batch_size_stays_positive sample_builder
           [CallBatchSize (-3); CallBatchSize 64; CallBatchSize 0; CallProject ["a"]]
           (constructed_of_fragment _ _ _) eq_refl).
Defined.


(** Projection on [a] and [b], filter on [c]: the materialized fields are
    [a; b; c]. *)
Lemma MaterializedFields_after_Project_and_Filter_witness :
  exists sc,
    ScannerBuilder_Finish
      (run_calls ([CallBatchSize 8] ++ [CallProject ["a"; "b"];
                                        CallFilter (SField (RefName "c"))])
                 sample_builder) = Value sc /\
    Field_name <$> ScanOptions_schema (Scanner_scan_options sc) = ["a"; "b"] /\
    filter (Scanner_scan_options sc) = SBound (RefName "c") 2 float64 /\
    ScanOptions_MaterializedFields (Scanner_scan_options sc) = Some ["a"; "b"; "c"].
Proof.
  exact (MaterializedFields_after_Project_and_Filter sample_builder
           [CallBatchSize 8] ["a"; "b"] (SField (RefName "c"))
           (SBound (RefName "c") 2 float64) ["c"]
           (constructed_of_fragment _ _ _) ltac:(discriminate)
           eq_refl eq_refl eq_refl eq_refl).
Defined.

(** Of the references [a; x; c; y], [x] is the first that does not resolve:
    the error names [x]. *)
Lemma Filter_reports_first_unresolved_reference_witness :
  ScannerBuilder_Filter a_x_c_y sample_builder =
    (NotOK (mkError Invalid "No match for FieldRef.Name(x)"), sample_builder).
Proof.
  refine (Filter_reports_first_unresolved_reference a_x_c_y sample_builder
            [RefName "a"] [RefName "c"; RefName "y"] (RefName "x") _
            eq_refl _ eq_refl).
  constructor; [by eexists|constructor].
Defined.


(** A dataset without fragments gives the table of no batches, with and
    without threads. *)
Lemma ToTable_of_no_scan_tasks_witness :
  Scanner_ToTable [] (empty_scanner false) [] = Value (sample_schema, []) /\
  Scanner_ToTable [3; 1] (empty_scanner true) [] = Value (sample_schema, []).
Proof.
  split.
  - exact (proj2 (proj2 (ToTable_of_no_scan_tasks [] (empty_scanner false) [] eq_refl))).
  - exact (proj2 (proj2 (ToTable_of_no_scan_tasks [3; 1] (empty_scanner true) [] eq_refl))).
Defined.

(** Three tasks completing in the order 1, 2, 0 on the pool leave the state
    that the serial run leaves. *)
Lemma ToTable_assemble_same_with_and_without_threads_witness :
  ToTable_assemble [1; 2; 0] (Value <$> sample_tasks) (mkScanContext true)
  = ToTable_assemble [] (Value <$> sample_tasks) (mkScanContext false) /\
  FlattenRecordBatchVector
    (batches (ToTable_assemble [1; 2; 0] (Value <$> sample_tasks) (mkScanContext true)).2)
  = ["A"; "B"; "C"].
Proof.
  refine (ToTable_assemble_same_with_and_without_threads [1; 2; 0] [] sample_tasks
            [["A"]; ["B"]; ["C"]] eq_refl _).
  symmetry. exact (Permutation_cons_append [1; 2] 0).
Defined.

(** Without threads, the second task of three fails: [ToTable] returns its
    error. *)
Lemma serial_ToTable_returns_error_of_first_failing_task_witness :
  Scanner_ToTable [] (failing_scanner false) [] = Failed io_error.
Proof.
  refine (serial_ToTable_returns_error_of_first_failing_task [] (failing_scanner false) []
            [InMemoryScanTask ["A"] (Scanner_scan_options (failing_scanner false))
                              (mkScanContext false)]
            [InMemoryScanTask ["C"] (Scanner_scan_options (failing_scanner false))
                              (mkScanContext false)]
            (FragmentScanTask (Value [Value "B1"; Failed io_error])
                              (Scanner_scan_options (failing_scanner false))
                              (mkScanContext false))
            io_error eq_refl eq_refl _ eq_refl).
  constructor; [by eexists|constructor].
Defined.
